(** * influx-spout writer: batching, dispatch and subscription monitoring

    A shallow embedding of [writer/writer.go] (package [writer]) and the
    properties of its batching-and-dispatch engine.

    The file has two parts.  Part I holds the embedding: one Rocq definition
    per Go function, under the Go name.  Part II holds the lemmas and the
    theorems about them. *)

From Stdlib Require Import ZArith Lia Bool List.
From Stdlib Require Import Strings.String Strings.Byte.
From stdpp Require Import base option list relations gmap strings pretty.

Open Scope Z_scope.

(* ===================================================================== *)
(** * Part I: the embedding                                               *)
(* ===================================================================== *)

(** ** Go data *)

(** A Go [[]byte]. *)
Abbreviation bytes := (list byte).

(** Go's [int] is 64 bits wide on the platforms the writer runs on;
    arithmetic wraps around in two's complement. *)
Definition int_min : Z := - 2 ^ 63.
Definition int_max : Z := 2 ^ 63 - 1.
Definition in_int (z : Z) : Prop := int_min <= z <= int_max.
Definition wrap (z : Z) : Z := (z + 2 ^ 63) mod 2 ^ 64 - 2 ^ 63.
Definition int_add (a b : Z) : Z := wrap (a + b).
Definition int_sub (a b : Z) : Z := wrap (a - b).
Definition int_mul (a b : Z) : Z := wrap (a * b).

(** [time.Duration] counts nanoseconds in an [int64]; [time.Second]. *)
Definition Second : Z := 1000000000.

(** A Go result pair [(int, error)]: the integer is returned also when the
    error is set. *)
Record IntErr := { val : Z; err : option string }.

(** ** Package [bytes] of the Go standard library

    [bytes.SplitAfter(s, sep)] is [genSplit(s, sep, len(sep), -1)].  The
    writer only ever splits after the one-byte separator ["\n"], so the
    separator is fixed here. *)
Module GoBytes.

Definition newline : byte := x0a.

Definition is_nl (b : byte) : bool := Byte.eqb b newline.

(** [bytes.Index(s, "\n")]: position of the first newline, Go's [-1] being
    [None]. *)
Fixpoint Index (s : bytes) : option nat :=
  match s with
  | [] => None
  | b :: s' => if is_nl b then Some 0%nat else S <$> Index s'
  end.

(** [bytes.Count(s, "\n")]. *)
Fixpoint Count (s : bytes) : nat :=
  match s with
  | [] => 0%nat
  | b :: s' => if is_nl b then S (Count s') else Count s'
  end.

(** The loop of [genSplit]: with [n] slots left before the last one,
    [m := Index(s, sep)]; [if m < 0 { break }]; [a[i] = s[:m+sepSave]];
    [s = s[m+len(sep):]]; after the loop [a[i] = s]. *)
Fixpoint genSplit (n : nat) (s : bytes) : list bytes :=
  match n with
  | O => [s]
  | S n' =>
      match Index s with
      | None => [s]
      | Some m => take (m + 1) s :: genSplit n' (drop (m + 1) s)
      end
  end.

(** [n = Count(s, sep) + 1] slots are allocated and [n--] bounds the loop. *)
Definition SplitAfter (s : bytes) : list bytes := genSplit (Count s) s.

End GoBytes.

(** ** Package [filter]: the rule set the writer consults

    The rule matcher is an external collaborator: the writer uses
    [RuleSet.Count()] and [RuleSet.Lookup(line)], which answers the index of
    the first matching rule, or [-1]. *)
Module Filter.
Record RuleSet := { Count : Z; Lookup : bytes -> Z }.
End Filter.

(** ** Package [stats]: named counters *)
Module Stats.

(** Modelled from the spec: package [stats] ([stats.New], [Stats.Inc],
    [Stats.Max], [Stats.Snapshot]) is not part of [writer.go].  The spec
    describes process-wide named integer counters, reported through
    [Increment(name)], [SetMax(name, value)] ("set if greater": the gauge
    records the historical maximum) and [Snapshot() -> mapping].  A counter
    that was never touched reads zero. *)
Definition New (names : list string) : gmap string Z :=
  list_to_map ((fun n => (n, 0)) <$> names).

Definition Get (name : string) (s : gmap string Z) : Z := default 0 (s !! name).

Definition Inc (name : string) (s : gmap string Z) : gmap string Z :=
  <[name := Get name s + 1]> s.

Definition Max (name : string) (v : Z) (s : gmap string Z) : gmap string Z :=
  if Get name s <? v then <[name := v]> s else s.

Definition Snapshot (s : gmap string Z) : gmap string Z := s.

End Stats.

(** Writer stats counters. *)
Definition statReceived : string := "received".
Definition statWriteRequests : string := "write_requests".
Definition statFailedWrites : string := "failed_writes".
Definition statMaxPending : string := "max_pending".

(** ** The batch accumulator *)

(** Modelled from the spec: [batchBuffer] ([newBatchBuffer], [Write],
    [Writes], [Size], [Age], [Reset], [Data]) is declared outside
    [writer.go].  The spec gives its state as
    [{bytes, writeCount, createdAt}], with [createdAt] unset while nothing
    has been written. *)
Record batchBuffer := {
  buf : bytes;
  writes : Z;
  created : option Z
}.

Definition newBatchBuffer : batchBuffer :=
  {| buf := []; writes := 0; created := None |}.

(** Modelled from the spec: [Write(data) -> error] appends [data] to the
    buffer, increments [writeCount], and sets [createdAt] to now if this is
    the first write since the last reset.  The buffer is held in memory; an
    append fails only when memory is exhausted, which this model leaves out,
    so the returned error is always [nil]. *)
Definition Write (now : Z) (data : bytes) (b : batchBuffer)
  : batchBuffer * option string :=
  ({| buf := buf b ++ data;
      writes := writes b + 1;
      created := if writes b =? 0 then Some now else created b |},
   None).

Definition Writes (b : batchBuffer) : Z := writes b.

Definition Size (b : batchBuffer) : Z := Z.of_nat (length (buf b)).

(** Modelled from the spec: the age of a batch is [now - createdAt]; a batch
    whose age reference is cleared has age zero. *)
Definition Age (now : Z) (b : batchBuffer) : Z :=
  match created b with
  | Some t => now - t
  | None => 0
  end.

(** Modelled from the spec: [Reset()] discards all buffered bytes and
    counters unconditionally. *)
Definition Reset (b : batchBuffer) : batchBuffer := newBatchBuffer.

Definition Data (b : batchBuffer) : bytes := buf b.

(** ** Configuration and the writer *)

(** The fields of [config.Config] that [writer.go] reads.  [Workers] is a
    count: a negative one makes [w.wg.Add] panic in [StartWriter] before
    anything is started, and is left out. *)
Record Config := {
  Name : string;
  NATSAddress : string;
  NATSSubject : list string;
  NATSSubjectMonitor : string;
  NATSPendingMaxMB : Z;
  InfluxDBAddress : string;
  InfluxDBPort : Z;
  DBName : string;
  BatchMessages : Z;
  BatchMaxMB : Z;
  BatchMaxSecs : Z;
  Workers : nat;
  WriteTimeoutSecs : Z;
  Debug : bool
}.

(** The immutable fields of [Writer]; the shared counters, the wait group,
    the stop channel and the connection are state and live in the states
    below. *)
Record Writer := {
  c : Config;
  url : string;
  batchMaxBytes : Z;
  batchMaxAge : Z;
  rules : Filter.RuleSet
}.

(** The struct literal at the head of [StartWriter]. *)
Definition newWriter (cfg : Config) (rs : Filter.RuleSet) : Writer :=
  {| c := cfg;
     url := "http://" +:+ InfluxDBAddress cfg +:+ ":" +:+ pretty (InfluxDBPort cfg)
            +:+ "/write?db=" +:+ DBName cfg;
     batchMaxBytes := int_mul (int_mul (BatchMaxMB cfg) 1024) 1024;
     batchMaxAge := int_mul (BatchMaxSecs cfg) Second;
     rules := rs |}.

Definition metricsLabels (w : Writer) : gmap string string :=
  <["component" := "writer"]>
  (<["name" := Name (c w)]>
  (<["influxdb_address" := InfluxDBAddress (c w)]>
  (<["influxdb_port" := pretty (InfluxDBPort (c w))]>
  (<["influxdb_dbname" := DBName (c w)]> ∅)))).

(** ** A worker *)

(** What [sendBatch] returns: the two [error] values it builds.  [ErrStatus]
    carries the response body only when it was read ([Debug] set and
    [ioutil.ReadAll] succeeded). *)
Inductive error :=
| ErrSend (cause : string)
| ErrStatus (status : string) (to : string) (body : option bytes).

(** What a worker does to the outside, in the order it does it:
    [batch.Write(data)], [client.Post(url, _, batch.Data())], and
    [log.Printf("Error: %v", err)] with the error or with the result of a
    failed [batch.Write]. *)
Inductive Event :=
| BatchWrite (data : bytes)
| HTTPPost (to : string) (body : bytes)
| LogError (e : error)
| LogWriteError (e : string).

(** The answer of the store to one [client.Post]: a transport error, or a
    response.  [Body] is what [ioutil.ReadAll(resp.Body)] gives, [None] when
    reading fails. *)
Record Response := {
  StatusCode : Z;
  Status : string;
  Body : option bytes
}.

Inductive PostResult :=
| PostErr (cause : string)
| PostResp (resp : Response).

(** One worker's view: its own batch, the shared counters, and what it has
    done so far. *)
Record WorkerState := {
  batch : batchBuffer;
  stats : gmap string Z;
  out : list Event
}.

(** The worker's code runs in a state monad over [WorkerState]. *)
Definition M (A : Type) : Type := WorkerState -> A * WorkerState.

Definition ret {A} (a : A) : M A := fun st => (a, st).

Definition bind {A B} (m : M A) (k : A -> M B) : M B :=
  fun st => let (a, st') := m st in k a st'.

Notation "'let*' x ':=' m 'in' k" := (bind m (fun x => k))
  (at level 10, x name, m at level 100, k at level 200).
Notation "m '>>' k" := (bind m (fun _ => k))
  (at level 100, k at level 200, right associativity).

Definition emit (e : Event) : M unit :=
  fun st => (tt, {| batch := batch st; stats := stats st; out := out st ++ [e] |}).

Definition getBatch : M batchBuffer := fun st => (batch st, st).

Definition putBatch (b : batchBuffer) : M unit :=
  fun st => (tt, {| batch := b; stats := stats st; out := out st |}).

(** [w.stats.Inc(name)]. *)
Definition Inc (name : string) : M unit :=
  fun st => (tt, {| batch := batch st; stats := Stats.Inc name (stats st); out := out st |}).

(** The closure [batchWrite] of [getBatchWriteFunc]; [now] is the clock
    reading [batch.Write] takes. *)
Definition batchWrite (now : Z) (data : bytes) : M unit :=
  let* b := getBatch in
  emit (BatchWrite data) >>
  let (b', e) := Write now data b in
  putBatch b' >>
  match e with
  | Some msg => emit (LogWriteError msg)
  | None => ret tt
  end.

Definition filterLine (w : Writer) (line : bytes) : bool :=
  if (length line =? 0)%nat then false
  else negb (Filter.Lookup (rules w) line =? -1).

(** [for _, line := range lines { body }]. *)
Fixpoint forEach {A} (l : list A) (body : A -> M unit) : M unit :=
  match l with
  | [] => ret tt
  | x :: l' => body x >> forEach l' body
  end.

Definition getBatchWriteFunc (w : Writer) (now : Z) : bytes -> M unit :=
  if Filter.Count (rules w) =? 0 then
    (* No rules - just append the received data straight onto the batch
       buffer. *)
    batchWrite now
  else
    fun data =>
      (* Rules exist - split the received data into lines and apply
         filters. *)
      forEach (GoBytes.SplitAfter data)
        (fun line => if filterLine w line then batchWrite now line else ret tt).

Definition shouldSendBatch (w : Writer) (now : Z) (b : batchBuffer) : bool :=
  (Writes b >=? BatchMessages (c w))
  || (Size b >=? batchMaxBytes w)
  || (Age now b >=? batchMaxAge w).

(** [sendBatch]: the POST itself, then the inspection of its result
    [(resp, err)], which the environment supplies as [res]. *)
Definition sendBatch (w : Writer) (res : PostResult) : M (option error) :=
  let* b := getBatch in
  emit (HTTPPost (url w) (Data b)) >>
  match res with
  | PostErr cause => ret (Some (ErrSend cause))
  | PostResp resp =>
      if StatusCode resp >? 300 then
        ret (Some (ErrStatus (Status resp) (url w)
                     (if Debug (c w) then Body resp else None)))
      else ret None
  end.

(** The three cases of the worker's [select]. *)
Inductive Select :=
| Job (data : bytes)
| After
| Stopped.

(** What the environment supplies to one turn of the worker's loop: which
    case of the [select] fires, the clock when the job is written to the
    batch, the clock when the batch is checked, and the store's answer
    should the batch be sent. *)
Record Turn := {
  sel : Select;
  tWrite : Z;
  tCheck : Z;
  post : PostResult
}.

(** Lines 171-181: the tail of the loop body. *)
Definition flush (w : Writer) (t : Turn) : M unit :=
  let* b := getBatch in
  if shouldSendBatch w (tCheck t) b then
    Inc statWriteRequests >>
    (let* e := sendBatch w (post t) in
     match e with
     | Some e => Inc statFailedWrites >> emit (LogError e)
     | None => ret tt
     end) >>
    (* Reset buffer on success or error; batch will not be sent again. *)
    (let* b := getBatch in putBatch (Reset b))
  else ret tt.

(** One turn of the loop; [false] when the worker returns. *)
Definition workerTurn (w : Writer) (t : Turn) : M bool :=
  match sel t with
  | Job data =>
      Inc statReceived >> getBatchWriteFunc w (tWrite t) data >>
      flush w t >> ret true
  | After => flush w t >> ret true
  | Stopped => ret false
  end.

(** The loop, over the turns the environment offers. *)
Fixpoint workerLoop (w : Writer) (ts : list Turn) : M unit :=
  match ts with
  | [] => ret tt
  | t :: ts' =>
      let* go := workerTurn w t in
      if go then workerLoop w ts' else ret tt
  end.

(** [worker]: a fresh batch, then the loop. *)
Definition worker (w : Writer) (ts : list Turn) (st : gmap string Z) : WorkerState :=
  snd (workerLoop w ts {| batch := newBatchBuffer; stats := st; out := [] |}).

(** ** The subscription monitor *)

(** The record [stats.CounterToPrometheus(name, value, time.Now(), labels)]
    renders; the rendering itself belongs to package [stats] and the time
    stamp to the clock, so the line is kept as its arguments. *)
Record CounterLine := {
  metric : string;
  value : Z;
  labels : gmap string string
}.

(** What a monitor does to the outside.  [Slept] is the [select] of the loop
    taking its [time.After(time.Second)] case: one tick interval has been
    waited.  [Unsubscribe] is the same [select] taking its [w.stop] case. *)
Inductive MonEvent :=
| LogFirstDroppedFailed (e : string)
| LogMaxPendingFailed (e : string)
| LogDroppedFailed (e : string)
| LogDropWarning (delta : Z) (subject : string) (total : Z)
| Publish (subject : string) (line : CounterLine)
| Flush
| Slept
| Unsubscribe.

(** [sub.MaxPending()] returns [(int, int, error)]. *)
Record MaxPendingResult := {
  pendingMsgs : Z;
  pendingBytes : Z;
  pendingErr : option string
}.

(** What the environment supplies to one turn of the monitor's loop: the
    answers of the two queries and, for the [select], whether the stop
    channel is closed by the time the tick would elapse. *)
Record MonTurn := {
  maxPending : MaxPendingResult;
  dropped : IntErr;
  stopClosed : bool
}.

Record MonState := {
  last : Z;
  drop : Z;
  mstats : gmap string Z;
  mout : list MonEvent
}.

Definition signalDrop (w : Writer) (subject : string) (drop last : Z) : list MonEvent :=
  [ LogDropWarning (int_sub drop last) subject drop;
    Publish (NATSSubjectMonitor (c w))
      {| metric := "dropped"; value := drop;
         labels := <["subject" := subject]> (metricsLabels w) |};
    Flush ].

(** How a turn of a loop ends: the loop goes round again, or the function
    returns. *)
Inductive Next := Continue | Return.

(** One turn of the [for] loop of [monitorSub], lines 265-290. *)
Definition monitorTurn (w : Writer) (subject : string) (t : MonTurn) (st : MonState)
  : Next * MonState :=
  match pendingErr (maxPending t) with
  | Some e =>
      (Continue,
       {| last := last st; drop := drop st; mstats := mstats st;
          mout := mout st ++ [LogMaxPendingFailed e] |})
  | None =>
      let stats1 := Stats.Max statMaxPending (pendingBytes (maxPending t)) (mstats st) in
      let drop1 := val (dropped t) in
      match err (dropped t) with
      | Some e =>
          (Continue,
           {| last := last st; drop := drop1; mstats := stats1;
              mout := mout st ++ [LogDroppedFailed e] |})
      | None =>
          let out1 :=
            if negb (drop1 =? last st)
            then mout st ++ signalDrop w subject drop1 (last st)
            else mout st in
          if stopClosed t then
            (Return,
             {| last := drop1; drop := drop1; mstats := stats1;
                mout := out1 ++ [Unsubscribe] |})
          else
            (Continue,
             {| last := drop1; drop := drop1; mstats := stats1;
                mout := out1 ++ [Slept] |})
      end
  end.

Fixpoint monitorLoop (w : Writer) (subject : string) (ts : list MonTurn) (st : MonState)
  : Next * MonState :=
  match ts with
  | [] => (Continue, st)
  | t :: ts' =>
      match monitorTurn w subject t st with
      | (Continue, st') => monitorLoop w subject ts' st'
      | (Return, st') => (Return, st')
      end
  end.

(** [monitorSub]: the first [sub.Dropped()], whose error is logged and whose
    value is kept all the same, then the loop. *)
Definition monitorSub (w : Writer) (subject : string) (first : IntErr)
    (ts : list MonTurn) (st : gmap string Z) : Next * MonState :=
  monitorLoop w subject ts
    {| last := val first; drop := val first; mstats := st;
       mout := match err first with
               | Some e => [LogFirstDroppedFailed e]
               | None => []
               end |}.

(** The drop warnings among a monitor's events, as (delta, total). *)
Definition dropWarnings (evs : list MonEvent) : list (Z * Z) :=
  omap (fun e => match e with
                 | LogDropWarning d _ total => Some (d, total)
                 | _ => None
                 end) evs.

(** How often a monitor slept a tick. *)
Definition isSlept (e : MonEvent) : bool :=
  match e with Slept => true | _ => false end.

Definition sleeps (evs : list MonEvent) : nat :=
  length (List.filter isSlept evs).

(** ** The statistician *)

(** What the statistician publishes: the snapshot of the counters, rendered
    by [stats.SnapshotToPrometheus] with the writer's labels, on the
    monitoring subject. *)
Record SnapshotLines := {
  snapshot : gmap string Z;
  snapshotLabels : gmap string string
}.

(** One turn of the loop of [startStatistician]: publish, then the [select]
    between three seconds of sleep and the stop channel ([stopFires]). *)
Definition statisticianTurn (w : Writer) (stopFires : bool) (st : gmap string Z)
  : Next * (string * SnapshotLines) :=
  (if stopFires then Return else Continue,
   (NATSSubjectMonitor (c w),
    {| snapshot := Stats.Snapshot st; snapshotLabels := metricsLabels w |})).

(** ** Starting and stopping *)

(** The goroutines a writer starts under its wait group.  (The profiling
    server of line 76 is started outside the wait group and is never
    waited for; it is left out.) *)
Inductive Goroutine :=
| GWorker (i : nat)
| GMonitor (subject : string)
| GStatistician.

Inductive Chan := ChanOpen | ChanClosed.

Inductive Conn := ConnOpen | ConnClosed.

(** The lifecycle fields of a [Writer]: the stop channel (and how often it
    was closed), the counter of the wait group, the connection ([None] is
    Go's [nil]), and the goroutines started and not yet returned. *)
Record Life := {
  stop : Chan;
  closes : nat;
  wg : Z;
  nc : option Conn;
  running : list Goroutine
}.

Definition newLife : Life :=
  {| stop := ChanOpen; closes := 0; wg := 0; nc := None; running := [] |}.

(** [w.wg.Add(n)]. *)
Definition wgAdd (n : Z) (l : Life) : Life :=
  {| stop := stop l; closes := closes l; wg := wg l + n; nc := nc l;
     running := running l |}.

(** [go f()]. *)
Definition spawn (g : Goroutine) (l : Life) : Life :=
  {| stop := stop l; closes := closes l; wg := wg l; nc := nc l;
     running := running l ++ [g] |}.

Definition connected (l : Life) : Life :=
  {| stop := stop l; closes := closes l; wg := wg l; nc := Some ConnOpen;
     running := running l |}.

(** What the environment answers to the fallible steps of [StartWriter]:
    [filter.RuleSetFromConfig], [nats.Connect] (which gives a [nil]
    connection with its error), [Subscribe] and [SetPendingLimits] for each
    subject, and [Flush]. *)
Record StartEnv := {
  rulesErr : option string;
  connectErr : option string;
  subscribeErr : string -> option string;
  limitsErr : string -> option string;
  flushErr : option string
}.

(** The errors [StartWriter] returns: the error of the rules as it is,
    ["NATS Error: can't connect: %v"], ["subscription for %q failed: %v"]
    with the subject, ["failed to set pending limits: %v"] and
    ["NATS flush error: %v"], each with its cause. *)
Inductive StartError :=
| ErrRules (cause : string)
| ErrConnect (cause : string)
| ErrSubscribe (subject : string) (cause : string)
| ErrPendingLimits (cause : string)
| ErrFlush (cause : string).

(** [for wk := 0; wk < w.c.Workers; wk++ { go w.worker(jobs) }]. *)
Definition spawnWorkers (n : nat) (l : Life) : Life :=
  fold_left (fun l i => spawn (GWorker i) l) (seq 0 n) l.

(** The loop over the subjects, lines 102-115. *)
Fixpoint subscribeAll (env : StartEnv) (subjects : list string) (l : Life)
  : Life * option StartError :=
  match subjects with
  | [] => (l, None)
  | subject :: rest =>
      match subscribeErr env subject with
      | Some e => (l, Some (ErrSubscribe subject e))
      | None =>
          match limitsErr env subject with
          | Some e => (l, Some (ErrPendingLimits e))
          | None => subscribeAll env rest (spawn (GMonitor subject) (wgAdd 1 l))
          end
      end
  end.

(** The body of [StartWriter] up to its [return]: the lifecycle state it
    leaves and the error it returns. *)
Definition startBody (cfg : Config) (env : StartEnv) : Life * option StartError :=
  let l := newLife in
  match rulesErr env with
  | Some e => (l, Some (ErrRules e))
  | None =>
      match connectErr env with
      | Some e => (l, Some (ErrConnect e))
      | None =>
          let l := connected l in
          let l := wgAdd (Z.of_nat (Workers cfg)) l in
          let l := spawnWorkers (Workers cfg) l in
          match subscribeAll env (NATSSubject cfg) l with
          | (l, Some e) => (l, Some e)
          | (l, None) =>
              match flushErr env with
              | Some e => (l, Some (ErrFlush e))
              | None => (spawn GStatistician (wgAdd 1 l), None)
              end
          end
      end
  end.

(** Where a call of [Stop] stands: not made, before [close(w.stop)], in
    [w.wg.Wait()], before the test of [w.nc], returned; or it has
    panicked. *)
Inductive StopPC := NotCalled | AtClose | AtWait | AtConnClose | Returned | Panicked.

(** The writer's goroutines together with the caller of [Stop]. *)
Record Sys := {
  life : Life;
  pc : StopPC
}.

(** [StartWriter]: the body, then the deferred function, which calls
    [w.Stop()] when the body returned an error; else the writer is handed to
    the caller, who may call [Stop]. *)
Definition StartWriter (cfg : Config) (env : StartEnv) : Sys :=
  let (l, e) := startBody cfg env in
  {| life := l; pc := match e with Some _ => AtClose | None => NotCalled end |}.

Definition setPC (p : StopPC) (s : Sys) : Sys := {| life := life s; pc := p |}.

(** The steps of the system.  [Stop] goes through its three statements:
    [close] panics on a closed channel, [Wait] passes when the counter is
    zero, the connection is closed unless [nil].  A goroutine returns, and
    its deferred [w.wg.Done()] runs, only by the [w.stop] case of its
    [select], hence only once the channel is closed; [stuck g] tells the
    goroutines that do not get to their [select]. *)
Inductive step (stuck : Goroutine -> bool) : Sys -> Sys -> Prop :=
| step_call s :
    pc s = NotCalled ->
    step stuck s (setPC AtClose s)
| step_close s :
    pc s = AtClose -> stop (life s) = ChanOpen ->
    step stuck s
      {| life := {| stop := ChanClosed; closes := S (closes (life s));
                    wg := wg (life s); nc := nc (life s);
                    running := running (life s) |};
         pc := AtWait |}
| step_close_closed s :
    pc s = AtClose -> stop (life s) = ChanClosed ->
    step stuck s (setPC Panicked s)
| step_return s before g after :
    stop (life s) = ChanClosed ->
    running (life s) = before ++ g :: after ->
    stuck g = false ->
    step stuck s
      {| life := {| stop := stop (life s); closes := closes (life s);
                    wg := wg (life s) - 1; nc := nc (life s);
                    running := before ++ after |};
         pc := pc s |}
| step_wait s :
    pc s = AtWait -> wg (life s) = 0 ->
    step stuck s (setPC AtConnClose s)
| step_conn_close s conn :
    pc s = AtConnClose -> nc (life s) = Some conn ->
    step stuck s
      {| life := {| stop := stop (life s); closes := closes (life s);
                    wg := wg (life s); nc := Some ConnClosed;
                    running := running (life s) |};
         pc := Returned |}
| step_conn_nil s :
    pc s = AtConnClose -> nc (life s) = None ->
    step stuck s (setPC Returned s).

(** How far a call of [Stop] is from its end. *)
Definition rank (p : StopPC) : nat :=
  match p with
  | NotCalled => 4
  | AtClose => 3
  | AtWait => 2
  | AtConnClose => 1
  | Returned | Panicked => 0
  end.

(** A bound on the steps a system can still take. *)
Definition stepsLeft (s : Sys) : nat := (length (running (life s)) + rank (pc s))%nat.

(** The wait group counts the goroutines started, the channel is open and
    the connection not closed: how [StartWriter] keeps its books. *)
Definition accounted (l : Life) : Prop :=
  wg l = Z.of_nat (length (running l))
  /\ stop l = ChanOpen /\ closes l = 0%nat /\ nc l <> Some ConnClosed.

(** What holds of a system from [StartWriter] on. *)
Definition life_inv (s : Sys) : Prop :=
  pc s <> Panicked
  /\ wg (life s) = Z.of_nat (length (running (life s)))
  /\ match pc s with
     | NotCalled | AtClose => stop (life s) = ChanOpen /\ closes (life s) = 0%nat
     | _ => stop (life s) = ChanClosed /\ closes (life s) = 1%nat
     end
  /\ match pc s with
     | AtConnClose | Returned => running (life s) = []
     | _ => True
     end
  /\ match pc s with
     | Returned => nc (life s) <> Some ConnOpen
     | _ => nc (life s) <> Some ConnClosed
     end.

(** ** Vocabulary of the statements *)

(** The external classifier: a line is accepted when some rule matches it,
    that is, when [Lookup] does not answer [-1]. *)
Definition Accept (w : Writer) (line : bytes) : bool :=
  negb (Filter.Lookup (rules w) line =? -1).

(** The arguments of the [batch.Write] calls among a worker's events, the
    bodies of its POSTs, and the errors it logged for failed POSTs. *)
Definition written (evs : list Event) : list bytes :=
  omap (fun e => match e with BatchWrite d => Some d | _ => None end) evs.

Definition posted (evs : list Event) : list bytes :=
  omap (fun e => match e with HTTPPost _ body => Some body | _ => None end) evs.

Definition failures (evs : list Event) : list error :=
  omap (fun e => match e with LogError e => Some e | _ => None end) evs.

(** A line with its boundary character: its last byte is the newline and
    it holds no other. *)
Definition terminated (l : bytes) : Prop :=
  exists body, l = body ++ [GoBytes.newline] /\ GoBytes.Count body = 0%nat.

(** A message cut on its line boundaries: the lines [ls], each with its
    newline, then what follows the last newline, [f] (possibly nothing),
    which holds no newline.  Glued together they are the message. *)
Definition cut (s : bytes) (ls : list bytes) (f : bytes) : Prop :=
  Forall terminated ls /\ GoBytes.Count f = 0%nat /\ concat ls ++ f = s.

(** What is left after the last newline counts as a line only when it is
    not empty. *)
Definition fragment (f : bytes) : list bytes :=
  match f with
  | [] => []
  | _ => [f]
  end.

(** A batch as [Write] and [Reset] leave it: the age reference is set
    exactly while writes are counted, and an uncounted batch holds no
    bytes. *)
Definition batch_ok (b : batchBuffer) : Prop :=
  0 <= writes b /\ (writes b = 0 <-> created b = None) /\ (writes b = 0 -> buf b = []).

(** The state of a worker after it has taken the turns [ts]. *)
Definition workerRun (w : Writer) (ts : list Turn) (st : WorkerState) : WorkerState :=
  snd (workerLoop w ts st).

(** A turn of the monitor's loop at the end of which [monitorSub] returns:
    both queries answer and the stop channel is closed. *)
Definition returns (t : MonTurn) : bool :=
  match pendingErr (maxPending t), err (dropped t) with
  | None, None => stopClosed t
  | _, _ => false
  end.

(** The turns the loop takes out of those on offer: up to the first at
    which it returns. *)
Fixpoint turnsTaken (ts : list MonTurn) : list MonTurn :=
  match ts with
  | [] => []
  | t :: ts' => if returns t then [t] else t :: turnsTaken ts'
  end.

(** The pending-bytes values a monitor observes over [ts]: those of the
    turns taken in which [sub.MaxPending()] answers. *)
Definition samples (ts : list MonTurn) : list Z :=
  omap (fun t => match pendingErr (maxPending t) with
                 | None => Some (pendingBytes (maxPending t))
                 | Some _ => None
                 end) (turnsTaken ts).

(** The greatest element of a list of integers ([d] for the empty list). *)
Definition maximum (d : Z) (l : list Z) : Z :=
  match l with
  | [] => d
  | x :: l' => fold_left Z.max l' x
  end.

(** A turn in which both queries answer. *)
Definition okTurn (pending dropped : Z) (stop : bool) : MonTurn :=
  {| maxPending := {| pendingMsgs := 0; pendingBytes := pending; pendingErr := None |};
     dropped := {| val := dropped; err := None |};
     stopClosed := stop |}.

(** The batch after the units [ls] have been written to it in turn. *)
Definition writeAll (now : Z) (ls : list bytes) (b : batchBuffer) : batchBuffer :=
  fold_left (fun b l => fst (Write now l b)) ls b.

(** The flush condition as the specification words it: the count bound,
    the size bound, or a batch that has been written to and has reached the
    age bound. *)
Definition ShouldFlush_spec (w : Writer) (now : Z) (b : batchBuffer) : Prop :=
  Writes b >= BatchMessages (c w)
  \/ Size b >= batchMaxBytes w
  \/ (Writes b > 0 /\ Age now b >= batchMaxAge w).

(** What holds of a worker's state all along a run that started with the
    counters [s0]: every byte written is in a POST already made or still in
    the buffer, in the order written and once; every POST is a counted write
    request; every logged failure is a counted failed write, and there is at
    most one per POST. *)
Definition worker_inv (s0 : gmap string Z) (st : WorkerState) : Prop :=
  concat (posted (out st)) ++ buf (batch st) = concat (written (out st))
  /\ Stats.Get statWriteRequests (stats st) =
     Stats.Get statWriteRequests s0 + Z.of_nat (length (posted (out st)))
  /\ Stats.Get statFailedWrites (stats st) =
     Stats.Get statFailedWrites s0 + Z.of_nat (length (failures (out st)))
  /\ (length (failures (out st)) <= length (posted (out st)))%nat
  /\ batch_ok (batch st).

(** A turn in which a query fails while the stop channel is closed:
    [sub.MaxPending()] when [pendingFails], else [sub.Dropped()] (after
    [sub.MaxPending()] answered [m]). *)
Definition failingTurn (x : bool * string * Z) : MonTurn :=
  let '(pendingFails, e, m) := x in
  if pendingFails then
    {| maxPending := {| pendingMsgs := 0; pendingBytes := 0; pendingErr := Some e |};
       dropped := {| val := 0; err := None |};
       stopClosed := true |}
  else
    {| maxPending := {| pendingMsgs := 0; pendingBytes := m; pendingErr := None |};
       dropped := {| val := -1; err := Some e |};
       stopClosed := true |}.

(** The events that are log lines about a failed query. *)
Definition isQueryFailure (e : MonEvent) : bool :=
  match e with
  | LogFirstDroppedFailed _ | LogMaxPendingFailed _ | LogDroppedFailed _ => true
  | _ => false
  end.

(** ** Sample configurations *)

Definition sampleConfig (maxCount maxMB maxSecs : Z) : Config :=
  {| Name := "writer"; NATSAddress := "nats://localhost:4222";
     NATSSubject := ["spout"]; NATSSubjectMonitor := "spout-monitor";
     NATSPendingMaxMB := 200;
     InfluxDBAddress := "localhost"; InfluxDBPort := 8086; DBName := "db";
     BatchMessages := maxCount; BatchMaxMB := maxMB; BatchMaxSecs := maxSecs;
     Workers := 2; WriteTimeoutSecs := 30; Debug := false |}.

(** No rules. *)
Definition noRules : Filter.RuleSet :=
  {| Filter.Count := 0; Filter.Lookup := fun _ => -1 |}.

(** One rule, matching the lines that start with the letter [a]. *)
Definition ruleA : Filter.RuleSet :=
  {| Filter.Count := 1;
     Filter.Lookup := fun l => match l with
                               | x61 :: _ => 0
                               | _ => -1
                               end |}.

(** An environment in which every step of [StartWriter] succeeds. *)
Definition allGood : StartEnv :=
  {| rulesErr := None; connectErr := None;
     subscribeErr := fun _ => None; limitsErr := fun _ => None;
     flushErr := None |}.

(** The bus cannot be reached. *)
Definition noBus : StartEnv :=
  {| rulesErr := None; connectErr := Some "connection refused";
     subscribeErr := fun _ => None; limitsErr := fun _ => None;
     flushErr := None |}.

(** The final flush of the subscriptions fails: the workers and the
    monitors run, the statistician was never started. *)
Definition flushFails : StartEnv :=
  {| rulesErr := None; connectErr := None;
     subscribeErr := fun _ => None; limitsErr := fun _ => None;
     flushErr := Some "timeout" |}.

Definition freshWorker (s0 : gmap string Z) : WorkerState :=
  {| batch := newBatchBuffer; stats := s0; out := [] |}.

(** ** Vocabulary of the further statements *)

(** What a job writes to the batch, in order: the payload itself without
    rules, else the pieces of the payload that [filterLine] lets through. *)
Definition unitsOf (w : Writer) (data : bytes) : list bytes :=
  if Filter.Count (rules w) =? 0 then [data]
  else List.filter (filterLine w) (GoBytes.SplitAfter data).

(** The state of a worker when its turn comes to the flush decision: after
    a job, the job is counted and written; else nothing happened. *)
Definition beforeCheck (w : Writer) (t : Turn) (st : WorkerState) : WorkerState :=
  match sel t with
  | Job data =>
      {| batch := writeAll (tWrite t) (unitsOf w data) (batch st);
         stats := Stats.Inc statReceived (stats st);
         out := out st ++ (BatchWrite <$> unitsOf w data) |}
  | _ => st
  end.

Definition isStopped (t : Turn) : bool :=
  match sel t with Stopped => true | _ => false end.

(** The jobs a worker takes out of the turns on offer: those before the
    first turn in which the stop channel fires. *)
Fixpoint jobsTaken (ts : list Turn) : nat :=
  match ts with
  | [] => 0
  | t :: ts' =>
      match sel t with
      | Job _ => S (jobsTaken ts')
      | After => jobsTaken ts'
      | Stopped => 0
      end
  end.

(** What a worker writes over the turns on offer: the units of the jobs it
    takes, in order. *)
Fixpoint unitsTaken (w : Writer) (ts : list Turn) : list bytes :=
  match ts with
  | [] => []
  | t :: ts' =>
      match sel t with
      | Job data => unitsOf w data ++ unitsTaken w ts'
      | After => unitsTaken w ts'
      | Stopped => []
      end
  end.

(** The totals published on the monitoring subject among a monitor's
    events, and the events that end a run. *)
Definition publishedTotals (evs : list MonEvent) : list Z :=
  omap (fun e => match e with Publish _ line => Some (value line) | _ => None end) evs.

Definition isUnsubscribe (e : MonEvent) : bool :=
  match e with Unsubscribe => true | _ => false end.

Definition isFlush (e : MonEvent) : bool :=
  match e with Flush => true | _ => false end.

(** A published record is a drop counter of the subject, sent on the
    monitoring subject of the writer. *)
Definition dropRecord (w : Writer) (subject : string) (e : MonEvent) : Prop :=
  match e with
  | Publish to line =>
      to = NATSSubjectMonitor (c w)
      /\ metric line = "dropped"
      /\ labels line !! "subject" = Some subject
  | _ => True
  end.

(** Every drop warning comes with its record, carrying the total of the
    warning, and with its flush. *)
Definition drops_paired (w : Writer) (subject : string) (evs : list MonEvent) : Prop :=
  publishedTotals evs = (snd <$> dropWarnings evs)
  /\ length (List.filter isFlush evs) = length (dropWarnings evs)
  /\ Forall (dropRecord w subject) evs.

Definition sumZ (l : list Z) : Z := fold_right Z.add 0 l.

(** The counts a monitor samples stay within the non-negative [int]s
    whenever [sub.Dropped()] answers. *)
Definition countsInRange (ts : list MonTurn) : Prop :=
  Forall (fun t => err (dropped t) = None -> 0 <= val (dropped t) <= int_max) ts.

(** The subjects [StartWriter] gets through: those before the first whose
    [Subscribe] or [SetPendingLimits] fails. *)
Fixpoint subscribedPrefix (env : StartEnv) (subjects : list string) : list string :=
  match subjects with
  | [] => []
  | subject :: rest =>
      match subscribeErr env subject, limitsErr env subject with
      | None, None => subject :: subscribedPrefix env rest
      | _, _ => []
      end
  end.

(* ===================================================================== *)
(** * Part II: properties                                                 *)
(* ===================================================================== *)

(** ** Go integers *)

Lemma wrap_in_int z : in_int z -> wrap z = z.
Proof.
  unfold in_int, int_min, int_max, wrap. intros Hz.
  rewrite Z.mod_small by lia. lia.
Qed.

Lemma int_sub_exact a b : in_int (a - b) -> int_sub a b = a - b.
Proof. apply wrap_in_int. Qed.

(** Two counts (non-negative [int]s) subtract without wrapping. *)
Lemma int_sub_counts a b :
  0 <= a <= int_max -> 0 <= b <= int_max -> int_sub a b = a - b.
Proof.
  intros Ha Hb. apply int_sub_exact.
  unfold in_int, int_min, int_max in *. lia.
Qed.

(** ** Splitting after newlines *)

Section SplitAfter.
Import GoBytes.

Lemma is_nl_true b : is_nl b = true <-> b = newline.
Proof.
  unfold is_nl. split.
  - apply Byte.byte_dec_bl.
  - apply Byte.byte_dec_lb.
Qed.

Lemma Count_app s t : Count (s ++ t) = (Count s + Count t)%nat.
Proof.
  induction s as [|b s IH]; simpl; [done|].
  destruct (is_nl b); lia.
Qed.

Lemma Count_newline : Count [newline] = 1%nat.
Proof. reflexivity. Qed.

Lemma Index_None s : Index s = None <-> Count s = 0%nat.
Proof.
  induction s as [|b s IH]; simpl; [done|].
  destruct (is_nl b); [done|].
  destruct (Index s); simpl; split; intros H; try done.
  - apply IH in H. done.
  - by apply IH.
Qed.

(** [Index] finds the first newline: what precedes it holds none. *)
Lemma Index_Some s m :
  Index s = Some m ->
  exists body rest,
    s = body ++ newline :: rest /\ length body = m /\ Count body = 0%nat.
Proof.
  revert m. induction s as [|b s IH]; intros m; simpl; [done|].
  destruct (is_nl b) eqn:Hb.
  - intros [= <-]. apply is_nl_true in Hb as ->.
    by exists [], s.
  - destruct (Index s) as [k|]; simpl; [|done].
    intros [= <-]. destruct (IH k eq_refl) as (body & rest & -> & <- & Hc).
    exists (b :: body), rest. simpl. by rewrite Hb.
Qed.

Lemma genSplit_cut n s :
  (Count s <= n)%nat ->
  exists ls f, genSplit n s = ls ++ [f] /\ cut s ls f.
Proof.
  revert s. induction n as [|n IH]; intros s Hn; simpl.
  - exists [], s. split; [done|]. repeat split; [constructor | lia].
  - destruct (Index s) as [m|] eqn:Hi.
    + destruct (Index_Some _ _ Hi) as (body & rest & -> & <- & Hc).
      rewrite Count_app in Hn.
      change (Count (newline :: rest)) with (S (Count rest)) in Hn.
      destruct (IH rest) as (ls & f & Hg & Hls & Hf & Hcat); [lia|].
      replace (body ++ newline :: rest) with ((body ++ [newline]) ++ rest)
        by (by rewrite <- app_assoc).
      rewrite take_app_length', drop_app_length'
        by (rewrite length_app; simpl; lia).
      rewrite Hg. exists ((body ++ [newline]) :: ls), f.
      split; [done|]. repeat split; [|done|].
      * constructor; [by exists body | done].
      * simpl. rewrite <- Hcat, <- !app_assoc. done.
    + apply Index_None in Hi. exists [], s.
      split; [done|]. repeat split; [constructor | done].
Qed.

(** [SplitAfter] returns the lines of the message followed by the
    remainder after the last newline; glued together, they are the
    message. *)
Lemma SplitAfter_cut s :
  exists ls f, SplitAfter s = ls ++ [f] /\ cut s ls f.
Proof. unfold SplitAfter. by apply genSplit_cut. Qed.

Lemma concat_SplitAfter s : concat (SplitAfter s) = s.
Proof.
  destruct (SplitAfter_cut s) as (ls & f & -> & _ & _ & Hcat).
  rewrite concat_app. simpl. by rewrite app_nil_r.
Qed.

Lemma terminated_nonempty l : terminated l -> l <> [].
Proof. intros (body & -> & _). by destruct body. Qed.

Lemma terminated_Count l : terminated l -> Count l = 1%nat.
Proof. intros (body & -> & Hc). rewrite Count_app, Hc. reflexivity. Qed.

(** The first newline of a message is where it is. *)
Lemma first_newline_unique body body' r r' :
  Count body = 0%nat -> Count body' = 0%nat ->
  body ++ newline :: r = body' ++ newline :: r' ->
  body = body' /\ r = r'.
Proof.
  revert body'. induction body as [|b body IH]; intros [|b' body'] Hb Hb' Hs;
    simpl in *.
  - by injection Hs as ->.
  - injection Hs as <- _. done.
  - injection Hs as -> _. done.
  - injection Hs as <- Hs. destruct (is_nl b); [done|].
    destruct (IH body' Hb Hb' Hs) as [-> ->]. done.
Qed.

(** There is one way only to cut a message. *)
Lemma cut_unique s ls f ls' f' :
  cut s ls f -> cut s ls' f' -> ls = ls' /\ f = f'.
Proof.
  revert s ls'.
  induction ls as [|l ls IH]; intros s ls' (Hls & Hf & Hs) (Hls' & Hf' & Hs').
  - simpl in Hs. rewrite <- Hs in Hs'. clear Hs.
    destruct ls' as [|l' ls']; [simpl in Hs'; done|].
    exfalso. apply Forall_cons in Hls' as [Hl' _].
    apply terminated_Count in Hl'.
    apply (f_equal Count) in Hs'. simpl in Hs'.
    rewrite !Count_app in Hs'. lia.
  - apply Forall_cons in Hls as [Hl Hls].
    destruct ls' as [|l' ls'].
    { exfalso. apply terminated_Count in Hl. simpl in Hs'.
      rewrite <- Hs' in Hs. clear Hs'.
      apply (f_equal Count) in Hs. simpl in Hs. rewrite !Count_app in Hs. lia. }
    apply Forall_cons in Hls' as [Hl' Hls'].
    destruct Hl as (body & -> & Hb). destruct Hl' as (body' & -> & Hb').
    simpl in Hs, Hs'. rewrite <- Hs' in Hs. rewrite <- !app_assoc in Hs.
    simpl in Hs.
    destruct (first_newline_unique _ _ _ _ Hb Hb' Hs) as [-> Hr].
    destruct (IH (concat ls ++ f) ls') as [-> ->]; [done | done | done].
Qed.

End SplitAfter.

(** ** The worker's monad *)

Ltac run_m :=
  unfold bind, ret, emit, getBatch, putBatch, Inc; simpl.

Lemma written_app evs evs' : written (evs ++ evs') = written evs ++ written evs'.
Proof. apply omap_app. Qed.

Lemma posted_app evs evs' : posted (evs ++ evs') = posted evs ++ posted evs'.
Proof. apply omap_app. Qed.

Lemma failures_app evs evs' : failures (evs ++ evs') = failures evs ++ failures evs'.
Proof. apply omap_app. Qed.

Lemma written_BatchWrite ls : written (BatchWrite <$> ls) = ls.
Proof.
  unfold written. induction ls as [|l ls IH]; simpl; [done|]. by f_equal.
Qed.

Lemma posted_BatchWrite ls : posted (BatchWrite <$> ls) = [].
Proof. unfold posted. induction ls as [|l ls IH]; simpl; done. Qed.

Lemma failures_BatchWrite ls : failures (BatchWrite <$> ls) = [].
Proof. unfold failures. induction ls as [|l ls IH]; simpl; done. Qed.

(** ** The batch accumulator *)

Lemma Write_buf now data b : buf (fst (Write now data b)) = buf b ++ data.
Proof. reflexivity. Qed.

Lemma Write_writes now data b : writes (fst (Write now data b)) = writes b + 1.
Proof. reflexivity. Qed.

Lemma writeAll_buf now ls b : buf (writeAll now ls b) = buf b ++ concat ls.
Proof.
  revert b. induction ls as [|l ls IH]; intros b; simpl.
  - by rewrite app_nil_r.
  - unfold writeAll in *. simpl. rewrite IH. simpl. by rewrite <- app_assoc.
Qed.

Lemma writeAll_writes now ls b :
  writes (writeAll now ls b) = writes b + Z.of_nat (length ls).
Proof.
  revert b. induction ls as [|l ls IH]; intros b; simpl.
  - lia.
  - unfold writeAll in *. simpl. rewrite IH. simpl. lia.
Qed.

Lemma batch_ok_new : batch_ok newBatchBuffer.
Proof. repeat split; simpl; done. Qed.

Lemma batch_ok_Reset b : batch_ok (Reset b).
Proof. apply batch_ok_new. Qed.

Lemma batch_ok_Write now data b : batch_ok b -> batch_ok (fst (Write now data b)).
Proof.
  intros (Hw & Hc & Hb). unfold batch_ok. simpl.
  split; [lia|]. split; [|lia].
  split; [lia|]. intros Hn. exfalso.
  destruct (Z.eqb_spec (writes b) 0) as [H0|H0]; [done|].
  assert (created b = None) as Hcn by done. apply Hc in Hcn. done.
Qed.

Lemma batch_ok_writeAll now ls b : batch_ok b -> batch_ok (writeAll now ls b).
Proof.
  revert b. induction ls as [|l ls IH]; intros b Hb; [done|].
  unfold writeAll in *. simpl. apply IH. by apply batch_ok_Write.
Qed.

(** An empty batch, as [Write] and [Reset] leave it, has age zero. *)
Lemma Age_empty now b : batch_ok b -> writes b = 0 -> Age now b = 0.
Proof. intros (_ & Hc & _) H0. unfold Age. apply Hc in H0. by rewrite H0. Qed.

(** ** The line filter *)

Section LineFilter.
Import GoBytes.
Variable w : Writer.
Variable now : Z.

Lemma batchWrite_run data st :
  batchWrite now data st =
  (tt, {| batch := fst (Write now data (batch st));
          stats := stats st;
          out := out st ++ [BatchWrite data] |}).
Proof. reflexivity. Qed.

(** The loop over the pieces writes the pieces [filterLine] lets through,
    in order, and does nothing else. *)
Lemma forEach_filterLine pieces st :
  forEach pieces
    (fun line => if filterLine w line then batchWrite now line else ret tt) st =
  (tt, {| batch := writeAll now (List.filter (filterLine w) pieces) (batch st);
          stats := stats st;
          out := out st ++ (BatchWrite <$> List.filter (filterLine w) pieces) |}).
Proof.
  revert st. induction pieces as [|l pieces IH]; intros st; simpl.
  - unfold ret. rewrite app_nil_r. by destruct st.
  - unfold bind at 1. destruct (filterLine w l) eqn:Hl.
    + rewrite batchWrite_run, IH. simpl. by rewrite <- app_assoc.
    + unfold ret at 1. by rewrite IH.
Qed.

Lemma filterLine_Accept line :
  filterLine w line = negb (length line =? 0)%nat && Accept w line.
Proof. unfold filterLine, Accept. by destruct (length line =? 0)%nat. Qed.

Lemma filterLine_nil : filterLine w [] = false.
Proof. reflexivity. Qed.

Lemma filterLine_nonempty line : line <> [] -> filterLine w line = Accept w line.
Proof. intros H. rewrite filterLine_Accept. by destruct line. Qed.

(** Of the pieces of a cut message, [filterLine] keeps the accepted
    lines; an empty remainder is no line. *)
Lemma filter_cut ls f :
  Forall terminated ls ->
  List.filter (filterLine w) (ls ++ [f]) = List.filter (Accept w) (ls ++ fragment f).
Proof.
  intros Hls. rewrite !List.filter_app. f_equal.
  - induction Hls as [|l ls Hl Hls IH]; simpl; [done|].
    rewrite IH, filterLine_nonempty by by apply terminated_nonempty. done.
  - destruct f as [|b f]; simpl; [done|].
    by rewrite filterLine_nonempty.
Qed.

(** What the filtering closure does to a worker's state. *)
Lemma filtering_run data st ls f :
  Filter.Count (rules w) <> 0 ->
  cut data ls f ->
  getBatchWriteFunc w now data st =
  (tt, {| batch := writeAll now (List.filter (Accept w) (ls ++ fragment f)) (batch st);
          stats := stats st;
          out := out st ++ (BatchWrite <$> List.filter (Accept w) (ls ++ fragment f)) |}).
Proof.
  intros Hn Hcut. unfold getBatchWriteFunc.
  destruct (Z.eqb_spec (Filter.Count (rules w)) 0) as [|_]; [done|].
  rewrite forEach_filterLine.
  destruct (SplitAfter_cut data) as (ls' & f' & -> & Hcut').
  destruct (cut_unique _ _ _ _ _ Hcut Hcut') as [<- <-].
  destruct Hcut as (Hls & _). by rewrite filter_cut.
Qed.

(** What the pass-through closure does to a worker's state. *)
Lemma passthrough_run data st :
  Filter.Count (rules w) = 0 ->
  getBatchWriteFunc w now data st =
  (tt, {| batch := fst (Write now data (batch st));
          stats := stats st;
          out := out st ++ [BatchWrite data] |}).
Proof.
  intros H0. unfold getBatchWriteFunc. rewrite H0. simpl.
  apply batchWrite_run.
Qed.

Lemma fragment_nonempty f : Forall (fun l => l <> []) (fragment f).
Proof. destruct f; simpl; repeat constructor. done. Qed.

Lemma cut_lines_nonempty data ls f :
  cut data ls f -> Forall (fun l : bytes => l <> []) (ls ++ fragment f).
Proof.
  intros (Hls & _). apply Forall_app. split.
  - eapply Forall_impl; [exact Hls|]. apply terminated_nonempty.
  - apply fragment_nonempty.
Qed.

End LineFilter.

(** ** Counters *)

Section Counters.
Implicit Types (s : gmap string Z) (n m : string).

Lemma Get_Inc_eq n s : Stats.Get n (Stats.Inc n s) = Stats.Get n s + 1.
Proof. unfold Stats.Inc, Stats.Get at 1. by rewrite lookup_insert_eq. Qed.

Lemma Get_Inc_ne n m s : n <> m -> Stats.Get m (Stats.Inc n s) = Stats.Get m s.
Proof. intros H. unfold Stats.Inc, Stats.Get at 1. by rewrite lookup_insert_ne. Qed.

Lemma Get_Max_eq n v s : Stats.Get n (Stats.Max n v s) = Z.max (Stats.Get n s) v.
Proof.
  unfold Stats.Max. destruct (Z.ltb_spec (Stats.Get n s) v).
  - unfold Stats.Get at 1. rewrite lookup_insert_eq. simpl. lia.
  - lia.
Qed.

Lemma Get_Max_ne n m v s : n <> m -> Stats.Get m (Stats.Max n v s) = Stats.Get m s.
Proof.
  intros H. unfold Stats.Max. destruct (Stats.Get n s <? v); [|done].
  unfold Stats.Get. by rewrite lookup_insert_ne.
Qed.

Lemma Get_New names n : Stats.Get n (Stats.New names) = 0.
Proof.
  unfold Stats.Get, Stats.New.
  destruct (list_to_map _ !! n) as [v|] eqn:Hv; [|done].
  apply elem_of_list_to_map_2 in Hv. apply list_elem_of_fmap in Hv.
  destruct Hv as (x & [= _ ->] & _). done.
Qed.

End Counters.

(** ** Sending a batch *)

Section Flush.
Variable w : Writer.

Lemma sendBatch_transport_error cause st :
  sendBatch w (PostErr cause) st =
  (Some (ErrSend cause),
   {| batch := batch st; stats := stats st;
      out := out st ++ [HTTPPost (url w) (buf (batch st))] |}).
Proof. reflexivity. Qed.

Lemma sendBatch_status_above_300 resp st :
  300 < StatusCode resp ->
  sendBatch w (PostResp resp) st =
  (Some (ErrStatus (Status resp) (url w) (if Debug (c w) then Body resp else None)),
   {| batch := batch st; stats := stats st;
      out := out st ++ [HTTPPost (url w) (buf (batch st))] |}).
Proof.
  intros H. unfold sendBatch. run_m.
  destruct (Z.gtb_spec (StatusCode resp) 300); [done | lia].
Qed.

Lemma sendBatch_status_upto_300 resp st :
  StatusCode resp <= 300 ->
  sendBatch w (PostResp resp) st =
  (None,
   {| batch := batch st; stats := stats st;
      out := out st ++ [HTTPPost (url w) (buf (batch st))] |}).
Proof.
  intros H. unfold sendBatch. run_m.
  destruct (Z.gtb_spec (StatusCode resp) 300); [lia | done].
Qed.

(** [sendBatch] posts the buffer once, touches nothing else, and answers
    an error exactly on a transport error or a status above 300. *)
Lemma sendBatch_run res st :
  exists e,
    sendBatch w res st =
    (e, {| batch := batch st; stats := stats st;
           out := out st ++ [HTTPPost (url w) (buf (batch st))] |})
    /\ (is_Some e <->
        match res with
        | PostErr _ => True
        | PostResp resp => 300 < StatusCode resp
        end).
Proof.
  destruct res as [cause|resp].
  - eexists. split; [apply sendBatch_transport_error|]. split; eauto.
  - destruct (Z.lt_ge_cases 300 (StatusCode resp)) as [H|H].
    + eexists. split; [by apply sendBatch_status_above_300|]. split; eauto.
    + eexists. split; [by apply sendBatch_status_upto_300|].
      split; [intros [? [=]] | lia].
Qed.

Lemma flush_idle t st :
  shouldSendBatch w (tCheck t) (batch st) = false -> flush w t st = (tt, st).
Proof. intros H. unfold flush. run_m. by rewrite H. Qed.

(** A flush attempt: one more write request, one POST of the buffer, one
    more failed write and one logged error when [sendBatch] answers an
    error, and a fresh batch whatever the answer. *)
Lemma flush_attempt t st :
  shouldSendBatch w (tCheck t) (batch st) = true ->
  exists e,
    fst (sendBatch w (post t)
           {| batch := batch st;
              stats := Stats.Inc statWriteRequests (stats st);
              out := out st |}) = e
    /\ flush w t st =
       (tt, {| batch := newBatchBuffer;
               stats := match e with
                        | Some _ => Stats.Inc statFailedWrites
                                      (Stats.Inc statWriteRequests (stats st))
                        | None => Stats.Inc statWriteRequests (stats st)
                        end;
               out := out st ++ HTTPPost (url w) (buf (batch st))
                        :: match e with
                           | Some e => [LogError e]
                           | None => []
                           end |}).
Proof.
  intros H. eexists. split; [reflexivity|].
  unfold flush. run_m. rewrite H.
  match goal with |- context [sendBatch w (post t) ?s] =>
    destruct (sendBatch_run (post t) s) as (e & -> & _) end.
  simpl. destruct e as [e|]; simpl; unfold Reset; by rewrite <- ?app_assoc.
Qed.

End Flush.

(** ** The flush decision *)

Lemma shouldSendBatch_true w now b :
  shouldSendBatch w now b = true <->
  Writes b >= BatchMessages (c w)
  \/ Size b >= batchMaxBytes w
  \/ Age now b >= batchMaxAge w.
Proof.
  unfold shouldSendBatch. rewrite !orb_true_iff, !Z.geb_le. lia.
Qed.

(** C1, as the claim has it, fails on an empty batch when the age bound is
    zero: nothing was written, no count or size bound is reached, and the
    batch is flushed all the same. *)
Lemma C1_counterexample :
  let w := newWriter (sampleConfig 10 10 0) noRules in
  ~ (shouldSendBatch w 0 newBatchBuffer = true <-> ShouldFlush_spec w 0 newBatchBuffer).
Proof.
  intros w [H _]. specialize (H eq_refl).
  destruct H as [H | [H | [H _]]]; vm_compute in H;
    [by apply H | by apply H | discriminate].
Qed.

(** C1 (amended).  The flush decision is true exactly when the write count
    has reached [BatchMessages], or the size has reached [batchMaxBytes], or
    the age of the batch has reached [batchMaxAge]; the decision does not
    test that something was written.  For a batch as [Write] and [Reset]
    leave it (an empty batch has age zero) and a positive age bound, that is
    the condition of the specification. *)
Theorem C1_flush_decision (w : Writer) (now : Z) (b : batchBuffer) :
  (shouldSendBatch w now b = true <->
     Writes b >= BatchMessages (c w)
     \/ Size b >= batchMaxBytes w
     \/ Age now b >= batchMaxAge w)
  /\ (batch_ok b -> 0 < batchMaxAge w ->
      (shouldSendBatch w now b = true <-> ShouldFlush_spec w now b)).
Proof.
  split; [apply shouldSendBatch_true|].
  intros Hok Hage. rewrite shouldSendBatch_true. unfold ShouldFlush_spec.
  destruct (Z.eq_dec (writes b) 0) as [H0|H0].
  - rewrite (Age_empty now b Hok H0). unfold Writes. lia.
  - destruct Hok as (Hw & _). unfold Writes. lia.
Qed.

Lemma C1_flush_decision_witness :
  let w := newWriter (sampleConfig 3 1 5) noRules in
  let b := fst (Write 0 [x61; GoBytes.newline] newBatchBuffer) in
  batch_ok b /\ 0 < batchMaxAge w /\
  (shouldSendBatch w (6 * Second) b = true <-> ShouldFlush_spec w (6 * Second) b).
Proof.
  intros w b.
  assert (Hok : batch_ok b) by (apply batch_ok_Write, batch_ok_new).
  assert (Hage : 0 < batchMaxAge w) by (by vm_compute).
  split; [exact Hok|]. split; [exact Hage|].
  exact (proj2 (C1_flush_decision w (6 * Second) b) Hok Hage).
Defined.

(** ** What the line filter yields *)

Section Yield.
Import GoBytes.

(** Lines glued together end with a newline. *)
Lemma concat_terminated ls :
  Forall terminated ls -> ls <> [] ->
  exists pre, concat ls = pre ++ [newline].
Proof.
  induction 1 as [|l ls (body & -> & _) Hls IH]; intros Hne; [done|].
  destruct ls as [|l' ls].
  - exists body. simpl. by rewrite app_nil_r.
  - destruct IH as (pre & Hpre); [done|].
    exists ((body ++ [newline]) ++ pre).
    change (concat ((body ++ [newline]) :: l' :: ls))
      with ((body ++ [newline]) ++ concat (l' :: ls)).
    by rewrite Hpre, app_assoc.
Qed.

(** A message that does not end with a newline leaves a remainder, which
    ends where the message ends. *)
Lemma cut_unterminated pre b ls f :
  cut (pre ++ [b]) ls f -> b <> newline -> f <> [] /\ list.last f = Some b.
Proof.
  intros (Hls & _ & Hcat) Hb.
  destruct f as [|x0 f0].
  - exfalso. rewrite app_nil_r in Hcat.
    destruct ls as [|l ls]; [by destruct pre|].
    destruct (concat_terminated _ Hls) as (pre' & Hpre'); [done|].
    rewrite Hpre' in Hcat. apply app_inj_tail in Hcat as [_ Heq]. congruence.
  - split; [done|].
    assert (Hf : x0 :: f0 <> []) by done.
    destruct (exists_last Hf) as (f' & x & Heq). rewrite Heq in *.
    rewrite app_assoc in Hcat. apply app_inj_tail in Hcat as [_ Hx].
    rewrite Hx. apply last_snoc.
Qed.

Lemma cut_newline : cut [newline] [[newline]] [].
Proof.
  split; [|done].
  constructor; [|constructor]. by exists [].
Qed.

End Yield.

(** C3.  With at least one rule, the line filter writes to the batch exactly
    the accepted lines of the message, in their order, each with its newline
    (the message being cut on its line boundaries, [cut]), and never an
    empty piece; with no rule, it writes the message as it is, once. *)
Theorem C3_line_filter (w : Writer) (now : Z) (data : bytes) (st : WorkerState) :
  let st' := snd (getBatchWriteFunc w now data st) in
  (exists ls f, cut data ls f)
  /\ (Filter.Count (rules w) <> 0 ->
   forall ls f, cut data ls f ->
     written (out st') = written (out st) ++ List.filter (Accept w) (ls ++ fragment f)
     /\ Forall (fun l : bytes => l <> []) (List.filter (Accept w) (ls ++ fragment f))
     /\ buf (batch st') =
        buf (batch st) ++ concat (List.filter (Accept w) (ls ++ fragment f)))
  /\ (Filter.Count (rules w) = 0 ->
      written (out st') = written (out st) ++ [data]
      /\ buf (batch st') = buf (batch st) ++ data).
Proof.
  split; [|split].
  - destruct (SplitAfter_cut data) as (ls & f & _ & Hcut). by exists ls, f.
  - intros Hn ls f Hcut. rewrite (filtering_run w now data st ls f Hn Hcut). simpl.
    rewrite written_app, written_BatchWrite, writeAll_buf.
    split; [done|]. split; [|done].
    apply List.Forall_forall. intros l [Hl _]%List.filter_In.
    pose proof (cut_lines_nonempty _ _ _ Hcut) as Hne.
    rewrite List.Forall_forall in Hne. by apply Hne.
  - intros H0. rewrite (passthrough_run w now data st H0). simpl.
    by rewrite written_app.
Qed.

Lemma C3_line_filter_witness :
  let w := newWriter (sampleConfig 3 1 5) ruleA in
  let data := [x61; x0a; x62; x0a; x61] in
  let st := freshWorker ∅ in
  Filter.Count (rules w) <> 0
  /\ cut data [[x61; x0a]; [x62; x0a]] [x61]
  /\ written (out (snd (getBatchWriteFunc w 0 data st))) = [[x61; x0a]; [x61]].
Proof.
  intros w data st.
  assert (Hn : Filter.Count (rules w) <> 0) by (by vm_compute).
  assert (Hcut : cut data [[x61; x0a]; [x62; x0a]] [x61]).
  { split; [|by vm_compute].
    constructor; [by exists [x61]|]. constructor; [by exists [x62]|]. constructor. }
  split; [exact Hn|]. split; [exact Hcut|].
  exact (proj1 (proj1 (proj2 (C3_line_filter w 0 data st)) Hn _ _ Hcut)).
Defined.

(** C9.  With rules, a message that does not end with a newline has a last
    piece, which ends with the last byte of the message; the piece is
    written when accepted, as it is, so that in the buffer the first
    accepted line of the next message follows it at once.  A piece is
    dropped without asking the matcher only when it is empty; a lone newline
    goes to the matcher. *)
Theorem C9_unterminated_tail (w : Writer) (now : Z) (pre : bytes) (b : byte)
    (data2 : bytes) (st : WorkerState) (ls ls2 : list bytes) (f f2 : bytes) :
  Filter.Count (rules w) <> 0 ->
  b <> GoBytes.newline ->
  cut (pre ++ [b]) ls f ->
  cut data2 ls2 f2 ->
  let st1 := snd (getBatchWriteFunc w now (pre ++ [b]) st) in
  let st2 := snd (getBatchWriteFunc w now data2 st1) in
  (f <> [] /\ list.last f = Some b)
  /\ written (out st1) =
     written (out st) ++ List.filter (Accept w) ls ++ (if Accept w f then [f] else [])
  /\ (Accept w f = true ->
      buf (batch st2) =
      buf (batch st) ++ concat (List.filter (Accept w) ls) ++ f
        ++ concat (List.filter (Accept w) (ls2 ++ fragment f2)))
  /\ (forall line, filterLine w line = false <->
                   line = [] \/ Filter.Lookup (rules w) line = -1)
  /\ filterLine w [GoBytes.newline] = Accept w [GoBytes.newline]
  /\ written (out (snd (getBatchWriteFunc w now [GoBytes.newline] st))) =
     written (out st) ++ (if Accept w [GoBytes.newline] then [[GoBytes.newline]] else []).
Proof.
  intros Hn Hb Hcut Hcut2 st1 st2.
  destruct (cut_unterminated _ _ _ _ Hcut Hb) as [Hf Hlast].
  assert (Hfilter : List.filter (Accept w) (ls ++ fragment f)
                    = List.filter (Accept w) ls ++ (if Accept w f then [f] else [])).
  { rewrite List.filter_app. f_equal. destruct f; [done|]. done. }
  split; [done|]. split; [|split; [|split; [|split]]].
  - subst st1. rewrite (filtering_run w now _ st ls f Hn Hcut). simpl.
    by rewrite written_app, written_BatchWrite, Hfilter.
  - intros Hacc. subst st2 st1.
    rewrite (filtering_run w now _ st ls f Hn Hcut).
    rewrite (filtering_run w now _ _ ls2 f2 Hn Hcut2). simpl.
    rewrite !writeAll_buf, Hfilter, Hacc, concat_app. simpl.
    by rewrite app_nil_r, <- !app_assoc.
  - intros line. rewrite filterLine_Accept. unfold Accept.
    destruct line as [|x line]; simpl.
    + split; [by left | done].
    + destruct (Z.eqb_spec (Filter.Lookup (rules w) (x :: line)) (-1)); simpl.
      * split; [by right | done].
      * split; [done | by intros [|]].
  - by apply filterLine_nonempty.
  - rewrite (filtering_run w now _ st _ _ Hn cut_newline). simpl.
    rewrite written_app, written_BatchWrite. simpl.
    by destruct (Accept w [GoBytes.newline]).
Qed.

Lemma C9_unterminated_tail_witness :
  let w := newWriter (sampleConfig 3 1 5) ruleA in
  let st := freshWorker ∅ in
  let st1 := snd (getBatchWriteFunc w 0 ([x61; x0a] ++ [x61]) st) in
  let st2 := snd (getBatchWriteFunc w 0 [x61; x62; x0a] st1) in
  Filter.Count (rules w) <> 0
  /\ x61 <> GoBytes.newline
  /\ cut ([x61; x0a] ++ [x61]) [[x61; x0a]] [x61]
  /\ cut [x61; x62; x0a] [[x61; x62; x0a]] []
  /\ written (out st1) = [[x61; x0a]; [x61]]
  /\ buf (batch st2) = [x61; x0a; x61; x61; x62; x0a].
Proof.
  intros w st st1 st2.
  assert (Hn : Filter.Count (rules w) <> 0) by (by vm_compute).
  assert (Hb : x61 <> GoBytes.newline) by discriminate.
  assert (Hcut : cut ([x61; x0a] ++ [x61]) [[x61; x0a]] [x61]).
  { split; [|by vm_compute]. constructor; [by exists [x61]|]. constructor. }
  assert (Hcut2 : cut [x61; x62; x0a] [[x61; x62; x0a]] []).
  { split; [|by vm_compute]. constructor; [by exists [x61; x62]|]. constructor. }
  pose proof (C9_unterminated_tail w 0 [x61; x0a] x61 [x61; x62; x0a] st
                _ _ _ _ Hn Hb Hcut Hcut2) as (_ & Hw & Hbuf & _).
  split; [exact Hn|]. split; [exact Hb|].
  split; [exact Hcut|]. split; [exact Hcut2|].
  split; [exact Hw | exact (Hbuf eq_refl)].
Defined.

(** ** What holds along a worker's run *)

Ltac split_inv := split; [|split; [|split; [|split]]].

Section WorkerRun.
Variable w : Writer.
Variable s0 : gmap string Z.

Lemma getBatchWriteFunc_units now data st :
  exists units,
    getBatchWriteFunc w now data st =
    (tt, {| batch := writeAll now units (batch st);
            stats := stats st;
            out := out st ++ (BatchWrite <$> units) |}).
Proof.
  destruct (Z.eq_dec (Filter.Count (rules w)) 0) as [H0|Hn].
  - exists [data]. by rewrite passthrough_run.
  - destruct (SplitAfter_cut data) as (ls & f & _ & Hcut).
    eexists. by apply filtering_run.
Qed.

Lemma inv_fresh : worker_inv s0 (freshWorker s0).
Proof.
  unfold worker_inv. simpl. split_inv; try lia; try done.
Qed.

Lemma inv_received st :
  worker_inv s0 st ->
  worker_inv s0 {| batch := batch st;
                   stats := Stats.Inc statReceived (stats st);
                   out := out st |}.
Proof.
  intros (H1 & H2 & H3 & H4 & H5). unfold worker_inv. simpl.
  rewrite !Get_Inc_ne by done. done.
Qed.

Lemma inv_units now units st :
  worker_inv s0 st ->
  worker_inv s0 {| batch := writeAll now units (batch st);
                   stats := stats st;
                   out := out st ++ (BatchWrite <$> units) |}.
Proof.
  intros (H1 & H2 & H3 & H4 & H5). unfold worker_inv. simpl.
  rewrite written_app, posted_app, failures_app.
  rewrite written_BatchWrite, posted_BatchWrite, failures_BatchWrite.
  rewrite !app_nil_r, writeAll_buf, concat_app, app_assoc, H1.
  split_inv; try done. by apply batch_ok_writeAll.
Qed.

Lemma inv_flush t st : worker_inv s0 st -> worker_inv s0 (snd (flush w t st)).
Proof.
  intros (H1 & H2 & H3 & H4 & H5).
  destruct (shouldSendBatch w (tCheck t) (batch st)) eqn:Hs.
  - destruct (flush_attempt w t st Hs) as (e & _ & ->).
    unfold worker_inv. simpl.
    rewrite written_app, posted_app, failures_app.
    destruct e as [e|]; simpl.
    + rewrite Get_Inc_ne, !Get_Inc_eq, Get_Inc_ne by done.
      rewrite !length_app, concat_app. simpl. rewrite !app_nil_r.
      rewrite <- H1. split_inv; try lia; try done.
    + rewrite Get_Inc_eq, Get_Inc_ne by done.
      rewrite !length_app, concat_app. simpl. rewrite !app_nil_r.
      rewrite <- H1. split_inv; try lia; try done.
  - rewrite flush_idle by done. done.
Qed.

Lemma inv_turn t st : worker_inv s0 st -> worker_inv s0 (snd (workerTurn w t st)).
Proof.
  intros H. unfold workerTurn. destruct (sel t) as [data| |].
  - unfold bind at 1. unfold Inc at 1. unfold bind at 1.
    destruct (getBatchWriteFunc_units (tWrite t) data
                {| batch := batch st;
                   stats := Stats.Inc statReceived (stats st);
                   out := out st |}) as (units & ->).
    unfold bind. simpl.
    match goal with |- context [flush w t ?s] =>
      pose proof (inv_flush t s) as Hf; destruct (flush w t s) as [[] st'] end.
    simpl in *. apply Hf. apply (inv_units _ _ _ (inv_received _ H)).
  - unfold bind. pose proof (inv_flush t st H) as Hf.
    destruct (flush w t st) as [[] st']. done.
  - done.
Qed.

Lemma inv_run ts st : worker_inv s0 st -> worker_inv s0 (workerRun w ts st).
Proof.
  unfold workerRun. revert st. induction ts as [|t ts IH]; intros st H; [done|].
  simpl. unfold bind. pose proof (inv_turn t st H) as Ht.
  destruct (workerTurn w t st) as [go st']. simpl in Ht.
  destruct go; [by apply IH | done].
Qed.

Lemma inv_worker ts : worker_inv s0 (worker w ts s0).
Proof. apply (inv_run ts (freshWorker s0)), inv_fresh. Qed.

End WorkerRun.

(** ** Flush attempts *)

(** C2: the code departs from the claim at status 300.  A response with
    status code 300 is taken for a success: [sendBatch] answers no error,
    and the flush neither counts a failed write nor logs an error. *)
Theorem C2_status_300_not_reported (w : Writer) (s : Select) (tw tc : Z)
    (status : string) (body : option bytes) (st : WorkerState) :
  let t := {| sel := s; tWrite := tw; tCheck := tc;
              post := PostResp {| StatusCode := 300; Status := status; Body := body |} |} in
  let st' := snd (flush w t st) in
  fst (sendBatch w (post t) st) = None
  /\ Stats.Get statFailedWrites (stats st') = Stats.Get statFailedWrites (stats st)
  /\ failures (out st') = failures (out st).
Proof.
  intros t st'. split.
  - reflexivity.
  - subst st'. destruct (shouldSendBatch w (tCheck t) (batch st)) eqn:Hs.
    + destruct (flush_attempt w t st Hs) as (e & He & ->).
      subst t. cbn [post] in He. rewrite sendBatch_status_upto_300 in He by done.
      simpl in He. subst e. simpl.
      rewrite Get_Inc_ne by done. rewrite failures_app. simpl.
      by rewrite app_nil_r.
    + by rewrite flush_idle.
Qed.

(** A flush attempt leaves a fresh batch (no writes, no bytes, no age
    reference) whatever the store answers, and posts the buffer once; the
    failure counter goes up by the number of errors the attempt logs, which
    is at most one: one on a transport error or a status above 300, none on
    a status below 300.  Along any run, the posted bodies followed by the
    buffer are the written units in order, so no byte is posted twice. *)
Theorem flush_attempt_resets (w : Writer) (t : Turn) (st : WorkerState) :
  shouldSendBatch w (tCheck t) (batch st) = true ->
  let st' := snd (flush w t st) in
  let logged := (length (failures (out st')) - length (failures (out st)))%nat in
  (Writes (batch st') = 0 /\ Size (batch st') = 0 /\ created (batch st') = None)
  /\ posted (out st') = posted (out st) ++ [buf (batch st)]
  /\ Stats.Get statFailedWrites (stats st') =
     Stats.Get statFailedWrites (stats st) + Z.of_nat logged
  /\ (logged <= 1)%nat
  /\ match post t with
     | PostErr _ => logged = 1%nat
     | PostResp resp =>
         (300 < StatusCode resp -> logged = 1%nat)
         /\ (StatusCode resp < 300 -> logged = 0%nat)
     end
  /\ (forall ts s0,
        let r := worker w ts s0 in
        concat (posted (out r)) ++ buf (batch r) = concat (written (out r))).
Proof.
  intros Hs st' logged.
  destruct (flush_attempt w t st Hs) as (e & He & Hf).
  match type of He with fst (sendBatch w (post t) ?s) = _ =>
    destruct (sendBatch_run w (post t) s) as (e' & Hrun & Hiff) end.
  rewrite Hrun in He. simpl in He. subst e'.
  assert (Hlogged : logged = match e with Some _ => 1%nat | None => 0%nat end).
  { subst logged st'. rewrite Hf. simpl. rewrite failures_app, length_app.
    destruct e; simpl; lia. }
  split; [by subst st'; rewrite Hf|].
  split; [subst st'; rewrite Hf; simpl; rewrite posted_app; by destruct e|].
  split.
  { rewrite Hlogged. subst st'. rewrite Hf. simpl.
    destruct e; simpl.
    - rewrite Get_Inc_eq, Get_Inc_ne by done. done.
    - rewrite Get_Inc_ne by done. lia. }
  split; [rewrite Hlogged; destruct e; lia|].
  split.
  { rewrite Hlogged. destruct (post t) as [cause|resp].
    - destruct e; [done|]. destruct (proj2 Hiff I) as [? [=]].
    - split; intros Hc.
      + destruct e; [done|]. destruct (proj2 Hiff Hc) as [? [=]].
      + destruct e; [|done]. assert (300 < StatusCode resp) by (apply Hiff; eauto). lia. }
  intros ts s0 r. by destruct (inv_worker w s0 ts) as (H1 & _).
Qed.

Lemma flush_attempt_resets_example :
  let w := newWriter (sampleConfig 1 1 5) noRules in
  let t := {| sel := After; tWrite := 0; tCheck := 0;
              post := PostResp {| StatusCode := 500;
                                  Status := "500 Internal Server Error";
                                  Body := None |} |} in
  let st := {| batch := fst (Write 0 [x61; x0a] newBatchBuffer);
               stats := ∅; out := [] |} in
  let st' := snd (flush w t st) in
  shouldSendBatch w (tCheck t) (batch st) = true
  /\ batch st' = newBatchBuffer
  /\ posted (out st') = [[x61; x0a]]
  /\ Stats.Get statFailedWrites (stats st') = 1.
Proof.
  intros w t st st'.
  assert (Hs : shouldSendBatch w (tCheck t) (batch st) = true) by (by vm_compute).
  pose proof (flush_attempt_resets w t st Hs) as (_ & Hp & _).
  split; [exact Hs|]. split; [by vm_compute|]. split; [exact Hp|]. by vm_compute.
Defined.

(** C4: the code departs from the claim at status 300.  A flush attempt
    answered with status code 300 does reset the batch, after one POST of
    the buffer and one counted write request; but the attempt, failed by the
    claim's own measure (status 300 or more), counts no failed write and logs
    no error.  The defect is the comparison [StatusCode > 300] of
    [sendBatch], as for C2. *)
Theorem C4_status_300_resets_uncounted (w : Writer) (s : Select) (tw tc : Z)
    (status : string) (body : option bytes) (st : WorkerState) :
  let t := {| sel := s; tWrite := tw; tCheck := tc;
              post := PostResp {| StatusCode := 300; Status := status; Body := body |} |} in
  shouldSendBatch w (tCheck t) (batch st) = true ->
  let st' := snd (flush w t st) in
  (Writes (batch st') = 0 /\ Size (batch st') = 0 /\ created (batch st') = None)
  /\ posted (out st') = posted (out st) ++ [buf (batch st)]
  /\ Stats.Get statWriteRequests (stats st') = Stats.Get statWriteRequests (stats st) + 1
  /\ Stats.Get statFailedWrites (stats st') = Stats.Get statFailedWrites (stats st)
  /\ failures (out st') = failures (out st).
Proof.
  intros t Hs st'. subst st'.
  destruct (flush_attempt w t st Hs) as (e & He & ->).
  subst t. cbn [post] in He. rewrite sendBatch_status_upto_300 in He by done.
  simpl in He. subst e. simpl.
  rewrite posted_app, failures_app, Get_Inc_eq, Get_Inc_ne by done. simpl.
  by rewrite app_nil_r.
Qed.

Lemma C4_status_300_resets_uncounted_witness :
  let w := newWriter (sampleConfig 1 1 5) noRules in
  let t := {| sel := After; tWrite := 0; tCheck := 0;
              post := PostResp {| StatusCode := 300;
                                  Status := "300 Multiple Choices";
                                  Body := None |} |} in
  let st := {| batch := fst (Write 0 [x61; x0a] newBatchBuffer);
               stats := ∅; out := [] |} in
  let st' := snd (flush w t st) in
  shouldSendBatch w (tCheck t) (batch st) = true
  /\ posted (out st') = [[x61; x0a]]
  /\ Stats.Get statFailedWrites (stats st') = Stats.Get statFailedWrites (stats st)
  /\ failures (out st') = [].
Proof.
  intros w t st st'.
  assert (Hs : shouldSendBatch w (tCheck t) (batch st) = true) by (by vm_compute).
  pose proof (C4_status_300_resets_uncounted w After 0 0 "300 Multiple Choices" None st Hs)
    as (_ & Hp & _ & Hf & Hl).
  split; [exact Hs|]. split; [exact Hp|]. split; [exact Hf | exact Hl].
Defined.

(** ** Jobs without rules *)

Lemma flush_keeps_received w t st :
  Stats.Get statReceived (stats (snd (flush w t st))) = Stats.Get statReceived (stats st)
  /\ written (out (snd (flush w t st))) = written (out st).
Proof.
  destruct (shouldSendBatch w (tCheck t) (batch st)) eqn:Hs.
  - destruct (flush_attempt w t st Hs) as (e & _ & ->). simpl.
    rewrite written_app. destruct e; simpl.
    + rewrite !Get_Inc_ne by done. by rewrite app_nil_r.
    + rewrite !Get_Inc_ne by done. by rewrite app_nil_r.
  - by rewrite flush_idle.
Qed.

(** C10.  Without rules, a job, whatever its payload (the empty one too),
    counts one more received message and makes one [batch.Write] of the whole
    payload: the batch the flush decision then looks at has one more write
    and the payload appended, however many lines the payload holds. *)
Theorem C10_job_without_rules (w : Writer) (t : Turn) (data : bytes) (st : WorkerState) :
  Filter.Count (rules w) = 0 ->
  sel t = Job data ->
  let mid := {| batch := fst (Write (tWrite t) data (batch st));
                stats := Stats.Inc statReceived (stats st);
                out := out st ++ [BatchWrite data] |} in
  let st' := snd (workerTurn w t st) in
  st' = snd (flush w t mid)
  /\ Writes (batch mid) = Writes (batch st) + 1
  /\ buf (batch mid) = buf (batch st) ++ data
  /\ written (out st') = written (out st) ++ [data]
  /\ Stats.Get statReceived (stats st') = Stats.Get statReceived (stats st) + 1.
Proof.
  intros H0 Hsel mid st'.
  assert (Hturn : st' = snd (flush w t mid)).
  { subst st'. unfold workerTurn. rewrite Hsel.
    unfold bind at 1. unfold Inc at 1. unfold bind at 1.
    rewrite passthrough_run by done. unfold bind, ret.
    by destruct (flush w t _) as [[] ?]. }
  split; [done|]. split; [done|]. split; [done|].
  rewrite Hturn. destruct (flush_keeps_received w t mid) as [-> ->].
  subst mid. simpl. rewrite written_app, Get_Inc_eq. done.
Qed.

Lemma C10_job_without_rules_witness :
  let w := newWriter (sampleConfig 3 1 5) noRules in
  let t := {| sel := Job []; tWrite := 0; tCheck := 0; post := PostErr "unused" |} in
  let st := freshWorker ∅ in
  let st' := snd (workerTurn w t st) in
  Filter.Count (rules w) = 0
  /\ sel t = Job []
  /\ written (out st') = [[]]
  /\ Writes (batch st') = 1
  /\ Stats.Get statReceived (stats st') = 1.
Proof.
  intros w t st st'.
  pose proof (C10_job_without_rules w t [] st eq_refl eq_refl) as (_ & _ & _ & Hw & Hr).
  split; [reflexivity|]. split; [reflexivity|]. split; [exact Hw|].
  split; [by vm_compute | exact Hr].
Defined.

(** Three two-line messages under a count bound of three and no rules: the
    third job triggers the one flush, whose body holds all six lines. *)
Example three_jobs_one_flush :
  let w := newWriter (sampleConfig 3 1 5) noRules in
  let job := {| sel := Job [x61; x0a; x62; x0a]; tWrite := 0; tCheck := 0;
                post := PostResp {| StatusCode := 204; Status := "204 No Content";
                                    Body := None |} |} in
  let r := worker w [job; job; job] ∅ in
  posted (out r) = [[x61; x0a; x62; x0a; x61; x0a; x62; x0a; x61; x0a; x62; x0a]]
  /\ failures (out r) = []
  /\ batch r = newBatchBuffer.
Proof. by vm_compute. Qed.

(** One line, then six seconds of silence under an age bound of five
    seconds: the flush comes from the age alone. *)
Example one_job_flushed_by_age :
  let w := newWriter (sampleConfig 3 1 5) noRules in
  let ok := PostResp {| StatusCode := 204; Status := "204 No Content"; Body := None |} in
  let r := worker w [ {| sel := Job [x61; x0a]; tWrite := 0; tCheck := 0; post := ok |};
                      {| sel := After; tWrite := 0; tCheck := 3 * Second; post := ok |};
                      {| sel := After; tWrite := 0; tCheck := 6 * Second; post := ok |};
                      {| sel := After; tWrite := 0; tCheck := 7 * Second; post := ok |} ] ∅ in
  posted (out r) = [[x61; x0a]].
Proof. by vm_compute. Qed.

(** A status of 500: one failed write, a fresh batch, and the worker takes
    the next job as usual. *)
Example status_500_then_next_job :
  let w := newWriter (sampleConfig 1 1 5) noRules in
  let r := worker w
    [ {| sel := Job [x61; x0a]; tWrite := 0; tCheck := 0;
         post := PostResp {| StatusCode := 500; Status := "500"; Body := None |} |};
      {| sel := Job [x62; x0a]; tWrite := 1; tCheck := 1;
         post := PostResp {| StatusCode := 204; Status := "204"; Body := None |} |} ] ∅ in
  posted (out r) = [[x61; x0a]; [x62; x0a]]
  /\ Stats.Get statFailedWrites (stats r) = 1
  /\ Stats.Get statWriteRequests (stats r) = 2
  /\ Stats.Get statReceived (stats r) = 2.
Proof. by vm_compute. Qed.

(** ** The subscription monitor *)

Section Monitor.
Variable w : Writer.
Variable subject : string.

Lemma dropWarnings_app evs evs' :
  dropWarnings (evs ++ evs') = dropWarnings evs ++ dropWarnings evs'.
Proof. apply omap_app. Qed.

Lemma sleeps_app evs evs' : sleeps (evs ++ evs') = (sleeps evs + sleeps evs')%nat.
Proof. unfold sleeps. by rewrite List.filter_app, length_app. Qed.

(** A turn in which both queries answer. *)
Lemma monitorTurn_ok t st :
  pendingErr (maxPending t) = None -> err (dropped t) = None ->
  monitorTurn w subject t st =
  (if stopClosed t then Return else Continue,
   {| last := val (dropped t);
      drop := val (dropped t);
      mstats := Stats.Max statMaxPending (pendingBytes (maxPending t)) (mstats st);
      mout := mout st
              ++ (if val (dropped t) =? last st then []
                  else signalDrop w subject (val (dropped t)) (last st))
              ++ [if stopClosed t then Unsubscribe else Slept] |}).
Proof.
  intros Hp Hd. unfold monitorTurn. rewrite Hp, Hd.
  destruct (val (dropped t) =? last st), (stopClosed t); simpl;
    by rewrite <- ?app_assoc.
Qed.

(** A turn in which [sub.MaxPending()] fails: a log line and round again,
    at once. *)
Lemma monitorTurn_pending_failed t st e :
  pendingErr (maxPending t) = Some e ->
  monitorTurn w subject t st =
  (Continue,
   {| last := last st; drop := drop st; mstats := mstats st;
      mout := mout st ++ [LogMaxPendingFailed e] |}).
Proof. intros Hp. unfold monitorTurn. by rewrite Hp. Qed.

(** A turn in which [sub.Dropped()] fails: the gauge is updated, a log
    line, and round again, at once. *)
Lemma monitorTurn_dropped_failed t st e :
  pendingErr (maxPending t) = None -> err (dropped t) = Some e ->
  monitorTurn w subject t st =
  (Continue,
   {| last := last st; drop := val (dropped t);
      mstats := Stats.Max statMaxPending (pendingBytes (maxPending t)) (mstats st);
      mout := mout st ++ [LogDroppedFailed e] |}).
Proof. intros Hp Hd. unfold monitorTurn. by rewrite Hp, Hd. Qed.

Lemma monitorTurn_returns t st :
  fst (monitorTurn w subject t st) = if returns t then Return else Continue.
Proof.
  unfold returns.
  destruct (pendingErr (maxPending t)) as [e|] eqn:Hp.
  - by rewrite (monitorTurn_pending_failed t st e).
  - destruct (err (dropped t)) as [e|] eqn:Hd.
    + by rewrite (monitorTurn_dropped_failed t st e).
    + by rewrite monitorTurn_ok.
Qed.

Lemma monitorTurn_gauge t st :
  Stats.Get statMaxPending (mstats (snd (monitorTurn w subject t st))) =
  match pendingErr (maxPending t) with
  | None => Z.max (Stats.Get statMaxPending (mstats st)) (pendingBytes (maxPending t))
  | Some _ => Stats.Get statMaxPending (mstats st)
  end.
Proof.
  destruct (pendingErr (maxPending t)) as [e|] eqn:Hp.
  - by rewrite (monitorTurn_pending_failed t st e).
  - destruct (err (dropped t)) as [e|] eqn:Hd.
    + rewrite (monitorTurn_dropped_failed t st e) by done. apply Get_Max_eq.
    + rewrite monitorTurn_ok by done. apply Get_Max_eq.
Qed.

Lemma monitorLoop_cons t ts st :
  monitorLoop w subject (t :: ts) st =
  if returns t then (Return, snd (monitorTurn w subject t st))
  else monitorLoop w subject ts (snd (monitorTurn w subject t st)).
Proof.
  simpl. pose proof (monitorTurn_returns t st) as H.
  destruct (monitorTurn w subject t st) as [nx st']. simpl in *.
  rewrite H. by destruct (returns t).
Qed.

Lemma monitorLoop_app ts ts' st :
  monitorLoop w subject (ts ++ ts') st =
  match monitorLoop w subject ts st with
  | (Continue, st') => monitorLoop w subject ts' st'
  | (Return, st') => (Return, st')
  end.
Proof.
  revert st. induction ts as [|t ts IH]; intros st; [done|].
  rewrite <- app_comm_cons, !monitorLoop_cons.
  destruct (returns t); [done | apply IH].
Qed.

(** The gauge after a run: the greatest of its value before and the
    samples observed. *)
Lemma monitorLoop_gauge ts st :
  Stats.Get statMaxPending (mstats (snd (monitorLoop w subject ts st))) =
  fold_left Z.max (samples ts) (Stats.Get statMaxPending (mstats st)).
Proof.
  revert st. induction ts as [|t ts IH]; intros st; [done|].
  rewrite monitorLoop_cons. unfold samples. simpl.
  destruct (returns t) eqn:Hr; simpl.
  - rewrite monitorTurn_gauge. unfold returns in Hr.
    by destruct (pendingErr (maxPending t)).
  - rewrite IH, monitorTurn_gauge.
    by destruct (pendingErr (maxPending t)).
Qed.

Lemma fold_max_le (l : list Z) (g : Z) : g <= fold_left Z.max l g.
Proof.
  revert g. induction l as [|x l IH]; intros g; simpl; [lia|].
  specialize (IH (Z.max g x)). lia.
Qed.

Lemma fold_max_maximum (l : list Z) (g : Z) :
  l <> [] -> Forall (fun x => g <= x) l -> fold_left Z.max l g = maximum g l.
Proof.
  intros Hne Hall. destruct l as [|x l]; [done|].
  apply Forall_cons in Hall as [Hx _]. simpl. f_equal. lia.
Qed.

Lemma monitorLoop_gauge_mono ts st :
  Stats.Get statMaxPending (mstats st) <=
  Stats.Get statMaxPending (mstats (snd (monitorLoop w subject ts st))).
Proof. rewrite monitorLoop_gauge. apply fold_max_le. Qed.

End Monitor.

(** C5.  In a turn where both queries answer, the monitor signals a drop
    (warning, published counter, flush) exactly when the count sampled
    differs from [last]; the warning carries Go's [drop - last], which is
    the difference itself whenever that fits an [int], as it does for two
    counts; and [last] becomes the count sampled.  With the counts 0, 5, 5,
    12 - the first taken on entry, or all four in the loop after a first 0 -
    two drops are signalled, of 5 and of 7. *)
Theorem C5_drop_events (w : Writer) (subject : string) (t : MonTurn) (st : MonState) :
  pendingErr (maxPending t) = None ->
  err (dropped t) = None ->
  let d := val (dropped t) in
  let st' := snd (monitorTurn w subject t st) in
  mout st' =
    mout st
    ++ (if d =? last st then [] else signalDrop w subject d (last st))
    ++ [if stopClosed t then Unsubscribe else Slept]
  /\ dropWarnings (mout st') =
     dropWarnings (mout st)
     ++ (if d =? last st then [] else [(int_sub d (last st), d)])
  /\ (in_int (d - last st) -> int_sub d (last st) = d - last st)
  /\ last st' = d
  /\ (forall m1 m2 m3 s,
        dropWarnings (mout (snd (monitorSub w subject {| val := 0; err := None |}
          [okTurn m1 5 false; okTurn m2 5 false; okTurn m3 12 false] s)))
        = [(5, 5); (7, 12)])
  /\ (forall m1 m2 m3 m4 s,
        dropWarnings (mout (snd (monitorSub w subject {| val := 0; err := None |}
          [okTurn m1 0 false; okTurn m2 5 false; okTurn m3 5 false;
           okTurn m4 12 false] s)))
        = [(5, 5); (7, 12)]).
Proof.
  intros Hp Hd d st'. subst st'. rewrite monitorTurn_ok by done. simpl. fold d.
  split; [done|]. split.
  { rewrite !dropWarnings_app. destruct (d =? last st), (stopClosed t);
      simpl; by rewrite ?app_nil_r. }
  split; [apply int_sub_exact|]. split; [done|].
  split; intros; reflexivity.
Qed.

Lemma C5_drop_events_witness :
  let w := newWriter (sampleConfig 3 1 5) noRules in
  let t := okTurn 100 12 false in
  let st := {| last := 5; drop := 5; mstats := ∅; mout := [] |} in
  let st' := snd (monitorTurn w "spout" t st) in
  pendingErr (maxPending t) = None
  /\ err (dropped t) = None
  /\ dropWarnings (mout st') = [(7, 12)]
  /\ last st' = 12.
Proof.
  intros w t st st'.
  pose proof (C5_drop_events w "spout" t st eq_refl eq_refl) as (_ & Hw & _ & Hl & _).
  split; [reflexivity|]. split; [reflexivity|]. split; [exact Hw | exact Hl].
Defined.

(** A run of turns with failing queries, from any state: no turn returns or
    sleeps, each logs one failure, and [last] stays. *)
Lemma failing_run (w : Writer) (subject : string) (xs : list (bool * string * Z))
    (st : MonState) :
  let r := monitorLoop w subject (failingTurn <$> xs) st in
  fst r = Continue
  /\ sleeps (mout (snd r)) = sleeps (mout st)
  /\ (In Unsubscribe (mout (snd r)) -> In Unsubscribe (mout st))
  /\ length (List.filter isQueryFailure (mout (snd r))) =
     (length xs + length (List.filter isQueryFailure (mout st)))%nat
  /\ last (snd r) = last st.
Proof.
  revert st. induction xs as [|[[pf e] m] xs IH]; intros st.
  - simpl. done.
  - rewrite fmap_cons. cbn [monitorLoop].
    assert (Hstep : exists ev stats1 drop1,
               isQueryFailure ev = true /\ isSlept ev = false /\ ev <> Unsubscribe
               /\ monitorTurn w subject (failingTurn (pf, e, m)) st =
                  (Continue,
                   {| last := last st; drop := drop1; mstats := stats1;
                      mout := mout st ++ [ev] |})).
    { destruct pf; simpl.
      - by exists (LogMaxPendingFailed e), (mstats st), (drop st).
      - by eexists (LogDroppedFailed e), _, _. }
    destruct Hstep as (ev & stats1 & drop1 & Hq & Hsl & Hun & Heq).
    rewrite Heq. 
    match goal with |- context [monitorLoop _ _ _ ?st1] =>
      destruct (IH st1) as (IH1 & IH2 & IH3 & IH4 & IH5) end.
    simpl in *.
    rewrite sleeps_app in IH2. rewrite List.filter_app, length_app in IH4.
    unfold sleeps at 3 in IH2. simpl in IH2, IH4. rewrite Hq in IH4. rewrite Hsl in IH2.
    simpl in IH2, IH4.
    split; [done|]. split; [lia|]. split; [|split; [lia | done]].
    intros Hin. apply IH3 in Hin. apply List.in_app_iff in Hin as [Hin|Hin]; [done|].
    simpl in Hin. intuition congruence.
Qed.

(** C6: the code departs from the claim.  While a subscription query keeps
    failing, every turn of the loop logs the failure and goes round again at
    once: the monitor never sleeps a tick between two queries, and it does
    not return although the stop channel is closed all along - the [select]
    that waits and watches the channel is never reached. *)
Theorem C6_failing_queries_spin (w : Writer) (subject : string) (first : IntErr)
    (s : gmap string Z) (xs : list (bool * string * Z)) :
  let r := monitorSub w subject first (failingTurn <$> xs) s in
  Forall (fun t => stopClosed t = true) (failingTurn <$> xs)
  /\ fst r = Continue
  /\ sleeps (mout (snd r)) = 0%nat
  /\ ~ In Unsubscribe (mout (snd r))
  /\ length (List.filter isQueryFailure (mout (snd r))) =
     (length xs + match err first with Some _ => 1 | None => 0 end)%nat
  /\ last (snd r) = val first.
Proof.
  intros r. split.
  { apply Forall_fmap, Forall_forall. by intros [[[] e] m] _. }
  subst r. unfold monitorSub.
  match goal with |- context [monitorLoop _ _ _ ?st] =>
    destruct (failing_run w subject xs st) as (H1 & H2 & H3 & H4 & H5) end.
  split; [done|]. simpl in *.
  split; [rewrite H2; by destruct (err first)|].
  split; [intros Hin; apply H3 in Hin; destruct (err first); simpl in Hin;
          intuition discriminate|].
  split; [rewrite H4; by destruct (err first) | done].
Qed.

(** C7.  Over any run of a monitor the gauge is the greatest of its value at
    the start and the pending-bytes values observed; it never decreases, from
    one turn to the next or over any continuation of the run; and once a
    value at least as large as the start value has been observed (any value,
    for a gauge starting at zero and byte counts), the gauge is the greatest
    value observed. *)
Theorem C7_max_pending_gauge (w : Writer) (subject : string) (first : IntErr)
    (ts : list MonTurn) (s : gmap string Z) :
  let gauge := fun r : Next * MonState => Stats.Get statMaxPending (mstats (snd r)) in
  let g0 := Stats.Get statMaxPending s in
  gauge (monitorSub w subject first ts s) = fold_left Z.max (samples ts) g0
  /\ (forall ts',
        gauge (monitorSub w subject first ts s)
        <= gauge (monitorSub w subject first (ts ++ ts') s))
  /\ (forall t st,
        Stats.Get statMaxPending (mstats st)
        <= Stats.Get statMaxPending (mstats (snd (monitorTurn w subject t st))))
  /\ (samples ts <> [] -> Forall (fun x => g0 <= x) (samples ts) ->
      gauge (monitorSub w subject first ts s) = maximum g0 (samples ts)).
Proof.
  intros gauge g0. subst gauge. unfold monitorSub. simpl.
  assert (Hg : forall l,
    Stats.Get statMaxPending (mstats (snd (monitorLoop w subject l
      {| last := val first; drop := val first; mstats := s;
         mout := match err first with
                 | Some e => [LogFirstDroppedFailed e]
                 | None => []
                 end |}))) = fold_left Z.max (samples l) g0).
  { intros l. by rewrite monitorLoop_gauge. }
  split; [apply Hg|]. split; [|split].
  - intros ts'. rewrite monitorLoop_app.
    destruct (monitorLoop w subject ts _) as [[] st'] eqn:Hrun; simpl.
    + apply monitorLoop_gauge_mono.
    + lia.
  - intros t st. rewrite monitorTurn_gauge.
    destruct (pendingErr (maxPending t)); lia.
  - intros Hne Hall. rewrite Hg. by apply fold_max_maximum.
Qed.

Lemma C7_max_pending_gauge_witness :
  let w := newWriter (sampleConfig 3 1 5) noRules in
  let ts := [okTurn 10 0 false; okTurn 40 0 false; okTurn 20 0 false] in
  let s := Stats.New [statReceived; statWriteRequests; statFailedWrites; statMaxPending] in
  samples ts <> []
  /\ Forall (fun x => Stats.Get statMaxPending s <= x) (samples ts)
  /\ Stats.Get statMaxPending
       (mstats (snd (monitorSub w "spout" {| val := 0; err := None |} ts s))) = 40.
Proof.
  intros w ts s.
  assert (Hne : samples ts <> []) by discriminate.
  assert (Hall : Forall (fun x => Stats.Get statMaxPending s <= x) (samples ts)).
  { repeat constructor; by vm_compute. }
  split; [exact Hne|]. split; [exact Hall|].
  exact (proj2 (proj2 (proj2
    (C7_max_pending_gauge w "spout" {| val := 0; err := None |} ts s))) Hne Hall).
Defined.

(** ** Starting and stopping *)

(** The loops return by the stop case of their [select] and by nothing
    else. *)
Lemma loops_return_only_on_stop (w : Writer) :
  (forall t st, fst (workerTurn w t st) = false <-> sel t = Stopped)
  /\ (forall subject t st,
        fst (monitorTurn w subject t st) = Return -> stopClosed t = true)
  /\ (forall stopFires st,
        fst (statisticianTurn w stopFires st) = Return <-> stopFires = true).
Proof.
  split; [|split].
  - intros t st. unfold workerTurn. destruct (sel t) as [data| |].
    + unfold bind, ret. destruct (Inc statReceived st) as [[] st1].
      destruct (getBatchWriteFunc w (tWrite t) data st1) as [[] st2].
      destruct (flush w t st2) as [[] st3]. done.
    + unfold bind, ret. destruct (flush w t st) as [[] st3]. done.
    + done.
  - intros subject t st. rewrite monitorTurn_returns. unfold returns.
    destruct (pendingErr (maxPending t)), (err (dropped t)), (stopClosed t); done.
  - intros [] st; done.
Qed.

Ltac life_conj :=
  repeat match goal with |- _ /\ _ => split end;
  try done; try tauto; try congruence.

Section Lifecycle.
Variable stuck : Goroutine -> bool.

Lemma accounted_spawn g l : accounted l -> accounted (spawn g (wgAdd 1 l)).
Proof.
  intros (Hwg & Hs & Hc & Hn). unfold accounted. simpl.
  rewrite length_app. simpl. repeat split; try done. lia.
Qed.

Lemma spawnWorkers_spec n l :
  spawnWorkers n l =
  {| stop := stop l; closes := closes l; wg := wg l; nc := nc l;
     running := running l ++ (GWorker <$> seq 0 n) |}.
Proof.
  unfold spawnWorkers. generalize 0%nat as k. revert l.
  induction n as [|n IH]; intros l k; simpl.
  - rewrite app_nil_r. by destruct l.
  - rewrite IH. simpl. by rewrite <- app_assoc.
Qed.

Lemma accounted_workers n l :
  accounted l -> accounted (spawnWorkers n (wgAdd (Z.of_nat n) l)).
Proof.
  intros (Hwg & Hs & Hc & Hn). rewrite spawnWorkers_spec. unfold accounted. simpl.
  rewrite length_app, length_fmap, length_seq. repeat split; try done. lia.
Qed.

Lemma accounted_subscribeAll env subjects l :
  accounted l -> accounted (fst (subscribeAll env subjects l)).
Proof.
  revert l. induction subjects as [|subject rest IH]; intros l Hl; simpl; [done|].
  destruct (subscribeErr env subject); [done|].
  destruct (limitsErr env subject); [done|].
  by apply IH, accounted_spawn.
Qed.

Lemma accounted_startBody cfg env : accounted (fst (startBody cfg env)).
Proof.
  unfold startBody.
  assert (H0 : accounted newLife) by (by unfold accounted).
  destruct (rulesErr env); [done|]. destruct (connectErr env); [done|].
  assert (H1 : accounted (connected newLife)) by (by unfold accounted).
  pose proof (accounted_subscribeAll env (NATSSubject cfg) _
                (accounted_workers (Workers cfg) _ H1)) as H2.
  destruct (subscribeAll env (NATSSubject cfg) _) as [l [e|]]; [done|].
  simpl in H2. destruct (flushErr env); [done|].
  by apply accounted_spawn.
Qed.

(** [StartWriter] leaves the books in order, whichever step failed. *)
Lemma life_inv_start cfg env : life_inv (StartWriter cfg env).
Proof.
  pose proof (accounted_startBody cfg env) as (Hwg & Hs & Hc & Hn).
  unfold StartWriter. destruct (startBody cfg env) as [l [e|]];
    unfold life_inv; simpl in *; done.
Qed.

Lemma life_inv_step s s' : life_inv s -> step stuck s s' -> life_inv s'.
Proof.
  intros (Hp & Hwg & Hst & Hrun & Hnc) Hstep.
  destruct Hstep as [s Hpc|s Hpc Hopen|s Hpc Hclosed|s before g after Hclosed Hr _
                    |s Hpc Hz|s conn Hpc Hconn|s Hpc Hnil];
    unfold life_inv; simpl; try rewrite Hpc in *; simpl in *.
  - life_conj.
  - destruct Hst as [_ Hc]. rewrite Hc. life_conj.
  - destruct Hst as [Hst _]. congruence.
  - split; [done|]. split.
    { rewrite Hwg, Hr, !length_app. simpl. lia. }
    split.
    { destruct (pc s); try done; destruct Hst; congruence. }
    split; [|done].
    destruct (pc s); try done; rewrite Hr in Hrun; by destruct before.
  - split; [done|]. split; [done|]. split; [done|]. split; [|done].
    rewrite Hwg in Hz. destruct (running (life s)); [done | simpl in Hz; lia].
  - life_conj.
  - life_conj.
Qed.

Lemma life_inv_reachable cfg env s :
  rtc (step stuck) (StartWriter cfg env) s -> life_inv s.
Proof.
  revert s. apply (rtc_ind_r life_inv).
  - apply life_inv_start.
  - intros y z _ Hyz IH. by apply (life_inv_step y z).
Qed.

(** While [Stop] has not returned and no started goroutine is stuck, some
    step can be taken. *)
Lemma life_progress s :
  life_inv s -> pc s <> Returned ->
  Forall (fun g => stuck g = false) (running (life s)) ->
  exists s', step stuck s s'.
Proof.
  intros (Hp & Hwg & Hst & Hrun & Hnc) Hnr Hall.
  destruct (pc s) eqn:Hpc; try done.
  - eexists. by apply step_call.
  - eexists. apply step_close; [done | by destruct Hst].
  - destruct (running (life s)) as [|g rest] eqn:Hr.
    + eexists. apply step_wait; [done | by rewrite Hwg].
    + apply Forall_cons in Hall as [Hg _].
      eexists. apply (step_return stuck s [] g rest); [by destruct Hst | done | done].
  - destruct (nc (life s)) as [conn|] eqn:Hconn.
    + eexists. by apply (step_conn_close stuck s conn).
    + eexists. by apply step_conn_nil.
Qed.

(** Every step brings the end nearer. *)
Lemma step_stepsLeft s s' : step stuck s s' -> (stepsLeft s' < stepsLeft s)%nat.
Proof.
  intros Hstep.
  destruct Hstep as [s Hpc|s Hpc Hopen|s Hpc Hclosed|s before g after Hclosed Hr _
                    |s Hpc Hz|s conn Hpc Hconn|s Hpc Hnil];
    unfold stepsLeft; simpl; try rewrite Hpc; simpl; try lia.
  rewrite Hr, !length_app. simpl. lia.
Qed.

Lemma nsteps_stepsLeft n s s' :
  nsteps (step stuck) n s s' -> (n + stepsLeft s' <= stepsLeft s)%nat.
Proof.
  induction 1 as [|n x y z Hxy _ IH]; [lia|].
  apply step_stepsLeft in Hxy. lia.
Qed.

End Lifecycle.

(** [Stop] is to be called once: before a closed channel, its [close]
    panics. *)
Lemma Stop_again_panics stuck s s' :
  pc s = AtClose -> stop (life s) = ChanClosed -> step stuck s s' ->
  pc s' = Panicked \/ (pc s' = AtClose /\ stop (life s') = ChanClosed).
Proof.
  intros Hpc Hc Hstep. inversion Hstep; subst; simpl in *; try congruence.
  - by left.
  - by right.
Qed.

(** When the rules or the connection fail, nothing was started and the
    connection is [nil]. *)
Lemma nothing_started cfg env :
  rulesErr env <> None \/ connectErr env <> None ->
  life (StartWriter cfg env) = newLife /\ pc (StartWriter cfg env) = AtClose.
Proof.
  unfold StartWriter, startBody. intros [H|H].
  - by destruct (rulesErr env).
  - destruct (rulesErr env); [done|]. by destruct (connectErr env).
Qed.

Lemma deferred_stop cfg env :
  pc (StartWriter cfg env) = AtClose <-> snd (startBody cfg env) <> None.
Proof.
  unfold StartWriter. destruct (startBody cfg env) as [l [e|]]; simpl; split; done.
Qed.

(** C8.  From [StartWriter] on - whether it succeeded, or failed at any of
    its steps and called [Stop] itself - [Stop] never panics and closes the
    stop channel at most once, exactly once by the time it returns; the wait
    group counts exactly the goroutines started and not yet returned, so
    that [Stop] gets past [Wait] only when each of them has returned, and
    only then closes the connection, which it leaves alone when [nil].  As
    long as [Stop] has not returned and no started goroutine is stuck, a
    step can be taken, and no more than [stepsLeft] steps can be taken in
    all: [Stop] returns.  When the rules or the connection failed, nothing
    was started and there is nothing to wait for. *)
Theorem C8_stop_lifecycle (cfg : Config) (env : StartEnv)
    (stuck : Goroutine -> bool) (s : Sys) :
  rtc (step stuck) (StartWriter cfg env) s ->
  (pc (StartWriter cfg env) = AtClose <-> snd (startBody cfg env) <> None)
  /\ (rulesErr env <> None \/ connectErr env <> None ->
      life (StartWriter cfg env) = newLife)
  /\ pc s <> Panicked
  /\ (closes (life s) <= 1)%nat
  /\ wg (life s) = Z.of_nat (length (running (life s)))
  /\ (pc s = Returned ->
      closes (life s) = 1%nat /\ stop (life s) = ChanClosed
      /\ running (life s) = [] /\ nc (life s) <> Some ConnOpen)
  /\ (nc (life s) = Some ConnClosed -> pc s = Returned /\ running (life s) = [])
  /\ (pc s <> Returned -> Forall (fun g => stuck g = false) (running (life s)) ->
      exists s', step stuck s s')
  /\ (forall n s', nsteps (step stuck) n s s' -> (n + stepsLeft s' <= stepsLeft s)%nat).
Proof.
  intros Hreach.
  pose proof (life_inv_reachable stuck cfg env s Hreach) as Hinv.
  split; [apply deferred_stop|].
  split; [intros H; by apply nothing_started|].
  destruct Hinv as (Hp & Hwg & Hst & Hrun & Hnc).
  split; [done|]. split.
  { destruct (pc s); destruct Hst as [_ ->]; lia. }
  split; [done|]. split.
  { intros Hpc. rewrite Hpc in *. by destruct Hst. }
  split.
  { intros Hc. destruct (pc s); try done. }
  split.
  { intros Hnr Hall. apply (life_progress stuck s); done. }
  intros n s'. apply nsteps_stepsLeft.
Qed.

Lemma C8_stop_lifecycle_witness :
  let cfg := sampleConfig 3 1 5 in
  let stuck := fun _ : Goroutine => false in
  let s := {| life := {| stop := ChanClosed; closes := 1; wg := 0; nc := None;
                         running := [] |};
              pc := Returned |} in
  rtc (step stuck) (StartWriter cfg noBus) s
  /\ pc s <> Panicked
  /\ (closes (life s) <= 1)%nat.
Proof.
  intros cfg stuck s.
  assert (Hreach : rtc (step stuck) (StartWriter cfg noBus) s).
  { eapply rtc_l; [by apply step_close|].
    eapply rtc_l; [by apply step_wait|].
    eapply rtc_l; [by apply step_conn_nil|].
    apply rtc_refl. }
  pose proof (C8_stop_lifecycle cfg noBus stuck s Hreach) as (_ & _ & Hp & Hc & _).
  split; [exact Hreach|]. split; [exact Hp | exact Hc].
Defined.

(** A start that fails at the final flush, with two workers and one
    subject: the deferred [Stop] closes the channel, the two workers and the
    monitor return, [Wait] passes, the connection is closed. *)
Example stop_after_failed_flush :
  let cfg := sampleConfig 3 1 5 in
  running (life (StartWriter cfg flushFails)) = [GWorker 0; GWorker 1; GMonitor "spout"]
  /\ wg (life (StartWriter cfg flushFails)) = 3
  /\ nsteps (step (fun _ => false)) 6 (StartWriter cfg flushFails)
       {| life := {| stop := ChanClosed; closes := 1; wg := 0;
                     nc := Some ConnClosed; running := [] |};
          pc := Returned |}.
Proof.
  intros cfg. split; [reflexivity|]. split; [reflexivity|].
  eapply nsteps_l; [by apply step_close|].
  eapply nsteps_l; [by apply (step_return _ _ [] (GWorker 0) [GWorker 1; GMonitor "spout"])|].
  eapply nsteps_l; [by apply (step_return _ _ [GWorker 1] (GMonitor "spout") [])|].
  eapply nsteps_l; [by apply (step_return _ _ [] (GWorker 1) [])|].
  eapply nsteps_l; [by apply step_wait|].
  eapply nsteps_l; [by apply (step_conn_close _ _ ConnOpen)|].
  apply nsteps_O.
Qed.

(** A started monitor that is stuck keeps [Stop] in [Wait]: from there no
    step can be taken. *)
Example stop_waits_for_stuck_monitor :
  let stuck := fun g => match g with GMonitor _ => true | _ => false end in
  let s := {| life := {| stop := ChanClosed; closes := 1; wg := 1;
                         nc := Some ConnOpen; running := [GMonitor "spout"] |};
              pc := AtWait |} in
  forall s', ~ step stuck s s'.
Proof.
  intros stuck s s' Hstep. inversion Hstep; subst; simpl in *; try done.
  destruct before as [|g0 before].
  - injection H0 as <- _. done.
  - injection H0 as _ H0. by destruct before.
Qed.

(* ===================================================================== *)
(** * Part III: further properties of the code                            *)
(* ===================================================================== *)

(** ** The turns of a worker *)

Section Turns.
Variable w : Writer.

Lemma writeAll_app now ls ls' b :
  writeAll now (ls ++ ls') b = writeAll now ls' (writeAll now ls b).
Proof. unfold writeAll. apply fold_left_app. Qed.

Lemma getBatchWriteFunc_unitsOf now data st :
  getBatchWriteFunc w now data st =
  (tt, {| batch := writeAll now (unitsOf w data) (batch st);
          stats := stats st;
          out := out st ++ (BatchWrite <$> unitsOf w data) |}).
Proof.
  unfold unitsOf, getBatchWriteFunc.
  destruct (Filter.Count (rules w) =? 0).
  - apply batchWrite_run.
  - apply forEach_filterLine.
Qed.

(** With rules, the units of a message are the accepted lines of its
    cut. *)
Lemma unitsOf_cut data ls f :
  Filter.Count (rules w) <> 0 -> cut data ls f ->
  unitsOf w data = List.filter (Accept w) (ls ++ fragment f).
Proof.
  intros Hn Hcut. unfold unitsOf.
  destruct (Z.eqb_spec (Filter.Count (rules w)) 0) as [|_]; [done|].
  destruct (SplitAfter_cut data) as (ls' & f' & -> & Hcut').
  destruct (cut_unique _ _ _ _ _ Hcut Hcut') as [<- <-].
  destruct Hcut as (Hls & _). by apply filter_cut.
Qed.

Lemma workerTurn_stopped t st : sel t = Stopped -> workerTurn w t st = (false, st).
Proof. intros H. unfold workerTurn. by rewrite H. Qed.

(** A turn other than the stop: the job, if any, is counted and written,
    then comes the flush decision, once. *)
Lemma workerTurn_check t st :
  sel t <> Stopped ->
  workerTurn w t st = (true, snd (flush w t (beforeCheck w t st))).
Proof.
  intros H. unfold workerTurn, beforeCheck. destruct (sel t) as [data| |]; [| |done].
  - unfold bind at 1. unfold Inc at 1. unfold bind at 1.
    rewrite getBatchWriteFunc_unitsOf. unfold bind, ret. simpl.
    by destruct (flush w t _) as [[] ?].
  - unfold bind, ret. by destruct (flush w t st) as [[] ?].
Qed.

Lemma workerRun_nil st : workerRun w [] st = st.
Proof. reflexivity. Qed.

Lemma workerRun_cons t ts st :
  workerRun w (t :: ts) st =
  if isStopped t then st
  else workerRun w ts (snd (flush w t (beforeCheck w t st))).
Proof.
  unfold workerRun, isStopped. simpl. unfold bind.
  destruct (sel t) eqn:Hsel.
  - rewrite workerTurn_check by (rewrite Hsel; done). done.
  - rewrite workerTurn_check by (rewrite Hsel; done). done.
  - by rewrite workerTurn_stopped.
Qed.

(** What a flush does to the events and the batch: nothing, or one POST of
    the buffer and a fresh batch. *)
Lemma flush_cases t st :
  let st' := snd (flush w t st) in
  (shouldSendBatch w (tCheck t) (batch st) = false /\ st' = st)
  \/ (shouldSendBatch w (tCheck t) (batch st) = true
      /\ batch st' = newBatchBuffer
      /\ posted (out st') = posted (out st) ++ [buf (batch st)]
      /\ written (out st') = written (out st)).
Proof.
  intros st'. subst st'.
  destruct (shouldSendBatch w (tCheck t) (batch st)) eqn:Hs.
  - right. destruct (flush_attempt w t st Hs) as (e & _ & ->). simpl.
    rewrite posted_app, written_app. by destruct e; simpl; rewrite ?app_nil_r.
  - left. by rewrite flush_idle.
Qed.

Lemma beforeCheck_written t st :
  exists units,
    written (out (beforeCheck w t st)) = written (out st) ++ units
    /\ posted (out (beforeCheck w t st)) = posted (out st)
    /\ batch (beforeCheck w t st) = writeAll (tWrite t) units (batch st)
    /\ units = match sel t with Job data => unitsOf w data | _ => [] end.
Proof.
  unfold beforeCheck. destruct (sel t) as [data| |].
  - exists (unitsOf w data). simpl.
    by rewrite written_app, posted_app, written_BatchWrite, posted_BatchWrite, app_nil_r.
  - exists []. by rewrite app_nil_r.
  - exists []. by rewrite app_nil_r.
Qed.

End Turns.

(** X1.  When the stop channel fires the worker returns at once: it posts
    nothing, leaves the counters and the buffer as they are - what was
    buffered is not sent - and takes none of the turns that follow. *)
Theorem X1_worker_stop (w : Writer) (ts : list Turn) (t : Turn) (rest : list Turn)
    (st : WorkerState) :
  sel t = Stopped ->
  workerRun w (ts ++ t :: rest) st = workerRun w ts st.
Proof.
  intros Hstop. revert st. induction ts as [|t0 ts IH]; intros st.
  - simpl. rewrite workerRun_cons. unfold isStopped. by rewrite Hstop.
  - rewrite <- app_comm_cons, !workerRun_cons.
    destruct (isStopped t0); [done | apply IH].
Qed.

Lemma X1_worker_stop_witness :
  let w := newWriter (sampleConfig 3 1 5) noRules in
  let ok := PostResp {| StatusCode := 204; Status := "204"; Body := None |} in
  let job := {| sel := Job [x61; x0a]; tWrite := 0; tCheck := 0; post := ok |} in
  let stop := {| sel := Stopped; tWrite := 1; tCheck := 1; post := ok |} in
  let r := workerRun w ([job] ++ stop :: [job; job]) (freshWorker ∅) in
  sel stop = Stopped
  /\ posted (out r) = []
  /\ buf (batch r) = [x61; x0a].
Proof.
  intros w ok job stop r. split; [reflexivity|].
  subst r. rewrite (X1_worker_stop w [job] stop [job; job] (freshWorker ∅) eq_refl).
  split; by vm_compute.
Defined.

(** X2.  As long as the stop channel does not fire, a run is the run of its
    parts one after the other, whatever the store answered to the POSTs:
    no failure ends the loop or is carried over otherwise than in the
    counters, the batch and the events. *)
Theorem X2_worker_runs_compose (w : Writer) (ts1 ts2 : list Turn) (st : WorkerState) :
  Forall (fun t => sel t <> Stopped) ts1 ->
  workerRun w (ts1 ++ ts2) st = workerRun w ts2 (workerRun w ts1 st).
Proof.
  intros Hall. revert st. induction Hall as [|t ts1 Ht Hall IH]; intros st; [done|].
  rewrite <- app_comm_cons, !workerRun_cons.
  unfold isStopped. destruct (sel t); [apply IH | apply IH | done].
Qed.

Lemma X2_worker_runs_compose_witness :
  let w := newWriter (sampleConfig 1 1 5) noRules in
  let bad := PostResp {| StatusCode := 500; Status := "500"; Body := None |} in
  let job := {| sel := Job [x61; x0a]; tWrite := 0; tCheck := 0; post := bad |} in
  Forall (fun t => sel t <> Stopped) [job]
  /\ workerRun w ([job] ++ [job]) (freshWorker ∅)
     = workerRun w [job] (workerRun w [job] (freshWorker ∅)).
Proof.
  intros w bad job.
  assert (H : Forall (fun t => sel t <> Stopped) [job]) by (by repeat constructor).
  split; [exact H|]. exact (X2_worker_runs_compose w [job] [job] (freshWorker ∅) H).
Defined.

Lemma turn_received (w : Writer) (t : Turn) (st : WorkerState) :
  Stats.Get statReceived (stats (snd (flush w t (beforeCheck w t st)))) =
  Stats.Get statReceived (stats st)
  + match sel t with Job _ => 1 | _ => 0 end.
Proof.
  destruct (flush_keeps_received w t (beforeCheck w t st)) as [-> _].
  unfold beforeCheck. destruct (sel t); simpl; [apply Get_Inc_eq | lia | lia].
Qed.

(** X3.  The received counter counts messages: over a run it grows by the
    number of jobs taken before the stop, whatever the rules, however many
    lines a job holds and however many of them are accepted. *)
Theorem X3_received_counts_jobs (w : Writer) (ts : list Turn) (st : WorkerState) :
  Stats.Get statReceived (stats (workerRun w ts st)) =
  Stats.Get statReceived (stats st) + Z.of_nat (jobsTaken ts).
Proof.
  revert st. induction ts as [|t ts IH]; intros st.
  - simpl. rewrite workerRun_nil. lia.
  - rewrite workerRun_cons. unfold isStopped. simpl.
    destruct (sel t) eqn:Hsel.
    + rewrite IH, turn_received, Hsel. lia.
    + rewrite IH, turn_received, Hsel. lia.
    + lia.
Qed.

(** X4.  Along any run of a worker the counters agree with what it did:
    [write_requests] grew by the number of POSTs, [failed_writes] by the
    number of failures logged, and there is at most one failure per POST, so
    that [failed_writes] never grows more than [write_requests]. *)
Theorem X4_counters_agree (w : Writer) (ts : list Turn) (s0 : gmap string Z) :
  let r := worker w ts s0 in
  Stats.Get statWriteRequests (stats r) - Stats.Get statWriteRequests s0
    = Z.of_nat (length (posted (out r)))
  /\ Stats.Get statFailedWrites (stats r) - Stats.Get statFailedWrites s0
     = Z.of_nat (length (failures (out r)))
  /\ Stats.Get statFailedWrites (stats r) - Stats.Get statFailedWrites s0
     <= Stats.Get statWriteRequests (stats r) - Stats.Get statWriteRequests s0.
Proof.
  intros r. destruct (inv_worker w s0 ts) as (_ & H2 & H3 & H4 & _).
  fold r in H2, H3, H4. lia.
Qed.

(** X5.  A turn makes at most one POST, and the flush decision comes after
    everything the job had to write is written: when the turn posts, the
    body is the buffer as it was followed by all the units of the job, and
    the batch is fresh; otherwise the units are in the buffer.  A message is
    never split over two POSTs. *)
Theorem X5_one_post_per_turn (w : Writer) (t : Turn) (st : WorkerState) :
  let st' := snd (workerTurn w t st) in
  let units := match sel t with Job data => unitsOf w data | _ => [] end in
  written (out st') = written (out st) ++ units
  /\ ((posted (out st') = posted (out st)
       /\ buf (batch st') = buf (batch st) ++ concat units)
      \/ (posted (out st') = posted (out st) ++ [buf (batch st) ++ concat units]
          /\ batch st' = newBatchBuffer)).
Proof.
  intros st' units. subst st'.
  destruct (sel t) eqn:Hsel; try (rewrite workerTurn_check by (rewrite Hsel; done));
    try (rewrite workerTurn_stopped by done); simpl.
  1,2: destruct (beforeCheck_written w t st) as (us & Hw & Hp & Hb & Hus);
       rewrite Hsel in Hus; fold units in Hus; subst us;
       destruct (flush_cases w t (beforeCheck w t st)) as [[_ ->]|(_ & Hn & Hpo & Hwr)].
  - split; [done|]. left. split; [done|]. by rewrite Hb, writeAll_buf.
  - rewrite Hwr, Hpo, Hp, Hb, writeAll_buf. split; [done|]. by right.
  - split; [done|]. left. split; [done|]. by rewrite Hb, writeAll_buf.
  - rewrite Hwr, Hpo, Hp, Hb, writeAll_buf. split; [done|]. by right.
  - subst units. rewrite !app_nil_r. split; [done|]. by left.
Qed.

(** ** Thresholds *)

Lemma shouldSendBatch_false (w : Writer) (now : Z) (b : batchBuffer) :
  shouldSendBatch w now b = false <->
  Writes b < BatchMessages (c w)
  /\ Size b < batchMaxBytes w
  /\ Age now b < batchMaxAge w.
Proof.
  unfold shouldSendBatch. rewrite !orb_false_iff.
  rewrite !(Z.geb_leb), !Z.leb_gt. tauto.
Qed.

Lemma created_writeAll (now t0 : Z) (ls : list bytes) (b : batchBuffer) :
  batch_ok b -> created b = Some t0 -> created (writeAll now ls b) = Some t0.
Proof.
  revert b. induction ls as [|l ls IH]; intros b Hok Hc; [done|].
  unfold writeAll in *. simpl. apply IH; [by apply batch_ok_Write|].
  simpl. destruct Hok as (_ & Hiff & _).
  destruct (Z.eqb_spec (writes b) 0) as [H0|_]; [|done].
  apply Hiff in H0. congruence.
Qed.

Lemma batch_ok_flush (w : Writer) (t : Turn) (st : WorkerState) :
  batch_ok (batch st) -> batch_ok (batch (snd (flush w t st))).
Proof.
  intros Hok. destruct (flush_cases w t st) as [[_ ->]|(_ & -> & _)];
    [done | apply batch_ok_new].
Qed.

Lemma batch_ok_beforeCheck (w : Writer) (t : Turn) (st : WorkerState) :
  batch_ok (batch st) -> batch_ok (batch (beforeCheck w t st)).
Proof.
  intros Hok. unfold beforeCheck. destruct (sel t); simpl; [|done|done].
  by apply batch_ok_writeAll.
Qed.

(** X6.  With a positive count bound and a positive size bound, a batch
    that is below both stays below both from turn to turn: a job may take it
    to a bound or past it, but then the same turn posts it.  Between two
    turns a worker never holds [BatchMessages] writes or [batchMaxBytes]
    bytes. *)
Theorem X6_batch_below_bounds (w : Writer) (ts : list Turn) (st : WorkerState) :
  0 < BatchMessages (c w) ->
  0 < batchMaxBytes w ->
  Writes (batch st) < BatchMessages (c w) ->
  Size (batch st) < batchMaxBytes w ->
  Writes (batch (workerRun w ts st)) < BatchMessages (c w)
  /\ Size (batch (workerRun w ts st)) < batchMaxBytes w.
Proof.
  intros Hc Hb. revert st. induction ts as [|t ts IH]; intros st Hw Hs; [done|].
  rewrite workerRun_cons. destruct (isStopped t); [done|].
  destruct (flush_cases w t (beforeCheck w t st)) as [[Hf ->]|(_ & Hn & _)].
  - apply shouldSendBatch_false in Hf as (Hw' & Hs' & _). by apply IH.
  - apply IH; rewrite Hn; done.
Qed.

Lemma X6_batch_below_bounds_witness :
  let w := newWriter (sampleConfig 2 1 5) noRules in
  let ok := PostResp {| StatusCode := 204; Status := "204"; Body := None |} in
  let job := {| sel := Job [x61; x0a]; tWrite := 0; tCheck := 0; post := ok |} in
  let r := workerRun w [job; job; job] (freshWorker ∅) in
  0 < BatchMessages (c w)
  /\ 0 < batchMaxBytes w
  /\ Writes (batch (freshWorker ∅)) < BatchMessages (c w)
  /\ Size (batch (freshWorker ∅)) < batchMaxBytes w
  /\ Writes (batch r) < BatchMessages (c w)
  /\ Size (batch r) < batchMaxBytes w.
Proof.
  intros w ok job r.
  assert (H1 : 0 < BatchMessages (c w)) by (by vm_compute).
  assert (H2 : 0 < batchMaxBytes w) by (by vm_compute).
  assert (H3 : Writes (batch (freshWorker ∅)) < BatchMessages (c w)) by (by vm_compute).
  assert (H4 : Size (batch (freshWorker ∅)) < batchMaxBytes w) by (by vm_compute).
  split; [exact H1|]. split; [exact H2|]. split; [exact H3|]. split; [exact H4|].
  exact (X6_batch_below_bounds w [job; job; job] (freshWorker ∅) H1 H2 H3 H4).
Defined.

(** X7.  With the three bounds positive, a worker posts only a batch that
    was written to: along any run, the POSTs made and the writes still
    counted in the batch are together no more than the writes made.  An idle
    worker posts nothing. *)
Theorem X7_no_post_without_write (w : Writer) (ts : list Turn) (s0 : gmap string Z) :
  0 < BatchMessages (c w) ->
  0 < batchMaxBytes w ->
  0 < batchMaxAge w ->
  let r := worker w ts s0 in
  Z.of_nat (length (posted (out r))) + Writes (batch r)
    <= Z.of_nat (length (written (out r)))
  /\ (length (posted (out r)) <= length (written (out r)))%nat.
Proof.
  intros Hc Hb Ha r.
  assert (Hgen : forall st,
    batch_ok (batch st) ->
    Z.of_nat (length (posted (out st))) + Writes (batch st)
      <= Z.of_nat (length (written (out st))) ->
    batch_ok (batch (workerRun w ts st))
    /\ Z.of_nat (length (posted (out (workerRun w ts st))))
       + Writes (batch (workerRun w ts st))
       <= Z.of_nat (length (written (out (workerRun w ts st))))).
  { induction ts as [|t ts IH]; intros st Hok Hle; [done|].
    rewrite workerRun_cons. destruct (isStopped t); [done|].
    destruct (beforeCheck_written w t st) as (us & Hw & Hp & Hbt & _).
    pose proof (batch_ok_beforeCheck w t st Hok) as Hok1.
    assert (Hle1 : Z.of_nat (length (posted (out (beforeCheck w t st))))
                   + Writes (batch (beforeCheck w t st))
                   <= Z.of_nat (length (written (out (beforeCheck w t st))))).
    { rewrite Hw, Hp, Hbt, length_app. unfold Writes in *.
      rewrite writeAll_writes. lia. }
    destruct (flush_cases w t (beforeCheck w t st))
      as [[_ ->]|(Hf & Hn & Hpo & Hwr)]; [by apply IH|].
    apply IH; [rewrite Hn; apply batch_ok_new|].
    rewrite Hn, Hpo, Hwr, length_app. simpl.
    assert (0 < Writes (batch (beforeCheck w t st))); [|lia].
    destruct (Z.eq_dec (writes (batch (beforeCheck w t st))) 0) as [H0|H0].
    - exfalso. apply shouldSendBatch_true in Hf.
      rewrite (Age_empty _ _ Hok1 H0) in Hf.
      destruct Hok1 as (_ & _ & Hbuf). unfold Writes, Size in Hf.
      rewrite (Hbuf H0), H0 in Hf. simpl in Hf. lia.
    - destruct Hok1 as (Hnn & _). unfold Writes. lia. }
  destruct (Hgen (freshWorker s0)) as (Hok & Hle);
    [apply batch_ok_new | simpl; unfold Writes; simpl; lia |].
  subst r. change (worker w ts s0) with (workerRun w ts (freshWorker s0)).
  split; [done|]. destruct Hok as (Hnn & _). unfold Writes in Hle. lia.
Qed.

Lemma X7_no_post_without_write_witness :
  let w := newWriter (sampleConfig 2 1 5) noRules in
  let ok := PostResp {| StatusCode := 204; Status := "204"; Body := None |} in
  let tick := {| sel := After; tWrite := 0; tCheck := 100 * Second; post := ok |} in
  let r := worker w [tick; tick; tick] ∅ in
  0 < BatchMessages (c w) /\ 0 < batchMaxBytes w /\ 0 < batchMaxAge w
  /\ (length (posted (out r)) <= length (written (out r)))%nat.
Proof.
  intros w ok tick r.
  assert (H1 : 0 < BatchMessages (c w)) by (by vm_compute).
  assert (H2 : 0 < batchMaxBytes w) by (by vm_compute).
  assert (H3 : 0 < batchMaxAge w) by (by vm_compute).
  split; [exact H1|]. split; [exact H2|]. split; [exact H3|].
  exact (proj2 (X7_no_post_without_write w [tick; tick; tick] ∅ H1 H2 H3)).
Defined.

(** X8.  A size bound that is zero or negative - [BatchMaxMB] zero, or so
    large that the product wraps - makes every turn a flush: each job and
    each tick posts whatever the buffer holds, the empty buffer too. *)
Theorem X8_nonpositive_size_bound (w : Writer) (t : Turn) (st : WorkerState) :
  batchMaxBytes w <= 0 ->
  sel t <> Stopped ->
  let st' := snd (workerTurn w t st) in
  let units := match sel t with Job data => unitsOf w data | _ => [] end in
  posted (out st') = posted (out st) ++ [buf (batch st) ++ concat units]
  /\ batch st' = newBatchBuffer.
Proof.
  intros Hb Hsel st' units. subst st'. rewrite workerTurn_check by done. simpl.
  destruct (beforeCheck_written w t st) as (us & _ & Hp & Hbt & Hus).
  fold units in Hus. subst us.
  destruct (flush_cases w t (beforeCheck w t st)) as [[Hf _]|(_ & Hn & Hpo & _)].
  - exfalso. apply shouldSendBatch_false in Hf as (_ & Hs & _).
    unfold Size in Hs. lia.
  - by rewrite Hpo, Hp, Hbt, writeAll_buf.
Qed.

Lemma X8_nonpositive_size_bound_witness :
  let w := newWriter (sampleConfig 3 0 5) noRules in
  let ok := PostResp {| StatusCode := 204; Status := "204"; Body := None |} in
  let tick := {| sel := After; tWrite := 0; tCheck := 0; post := ok |} in
  let st' := snd (workerTurn w tick (freshWorker ∅)) in
  batchMaxBytes w <= 0
  /\ sel tick <> Stopped
  /\ posted (out st') = [[]].
Proof.
  intros w ok tick st'.
  assert (H1 : batchMaxBytes w <= 0) by (by vm_compute).
  assert (H2 : sel tick <> Stopped) by discriminate.
  split; [exact H1|]. split; [exact H2|].
  exact (proj1 (X8_nonpositive_size_bound w tick (freshWorker ∅) H1 H2)).
Defined.

(** X9.  Once a batch has been written to, the first turn - job or tick -
    whose clock shows the batch at least [batchMaxAge] old posts it, with
    what the turn itself wrote, and leaves a fresh batch: what is written
    waits no longer than the age bound and one wake-up. *)
Theorem X9_flush_by_age (w : Writer) (t : Turn) (st : WorkerState) (t0 : Z) :
  batch_ok (batch st) ->
  created (batch st) = Some t0 ->
  batchMaxAge w <= tCheck t - t0 ->
  sel t <> Stopped ->
  let st' := snd (workerTurn w t st) in
  let units := match sel t with Job data => unitsOf w data | _ => [] end in
  posted (out st') = posted (out st) ++ [buf (batch st) ++ concat units]
  /\ batch st' = newBatchBuffer.
Proof.
  intros Hok Hc Hage Hsel st' units. subst st'. rewrite workerTurn_check by done. simpl.
  destruct (beforeCheck_written w t st) as (us & _ & Hp & Hbt & Hus).
  fold units in Hus. subst us.
  destruct (flush_cases w t (beforeCheck w t st)) as [[Hf _]|(_ & Hn & Hpo & _)].
  - exfalso. apply shouldSendBatch_false in Hf as (_ & _ & Ha).
    unfold Age in Ha. rewrite Hbt, (created_writeAll _ t0 _ _ Hok Hc) in Ha. lia.
  - by rewrite Hpo, Hp, Hbt, writeAll_buf.
Qed.

Lemma X9_flush_by_age_witness :
  let w := newWriter (sampleConfig 3 1 5) noRules in
  let ok := PostResp {| StatusCode := 204; Status := "204"; Body := None |} in
  let tick := {| sel := After; tWrite := 0; tCheck := 5 * Second; post := ok |} in
  let st := {| batch := fst (Write 0 [x61; x0a] newBatchBuffer); stats := ∅; out := [] |} in
  let st' := snd (workerTurn w tick st) in
  batch_ok (batch st)
  /\ created (batch st) = Some 0
  /\ batchMaxAge w <= tCheck tick - 0
  /\ sel tick <> Stopped
  /\ posted (out st') = [[x61; x0a]].
Proof.
  intros w ok tick st st'.
  assert (H1 : batch_ok (batch st)) by (apply batch_ok_Write, batch_ok_new).
  assert (H2 : created (batch st) = Some 0) by reflexivity.
  assert (H3 : batchMaxAge w <= tCheck tick - 0) by (by vm_compute).
  assert (H4 : sel tick <> Stopped) by discriminate.
  split; [exact H1|]. split; [exact H2|]. split; [exact H3|]. split; [exact H4|].
  exact (proj1 (X9_flush_by_age w tick st 0 H1 H2 H3 H4)).
Defined.

(** ** More on the line filter *)

Section MoreFilter.
Import GoBytes.
Variable w : Writer.

(** A message that ends with a newline leaves no remainder. *)
Lemma cut_terminated_message pre ls f : cut (pre ++ [newline]) ls f -> f = [].
Proof.
  intros (_ & Hf & Hcat). destruct f as [|x0 f0]; [done|]. exfalso.
  assert (Hne : x0 :: f0 <> []) by done.
  destruct (exists_last Hne) as (f' & x & Heq). rewrite Heq in *.
  rewrite app_assoc in Hcat. apply app_inj_tail in Hcat as [_ ->].
  rewrite Count_app in Hf. simpl in Hf. lia.
Qed.

Lemma cut_app d1 d2 ls1 ls2 f2 :
  cut d1 ls1 [] -> cut d2 ls2 f2 -> cut (d1 ++ d2) (ls1 ++ ls2) f2.
Proof.
  intros (H1 & _ & Hc1) (H2 & Hf2 & Hc2). split; [by apply Forall_app|].
  split; [done|]. rewrite app_nil_r in Hc1.
  by rewrite concat_app, <- app_assoc, Hc1, Hc2.
Qed.

Lemma unitsOf_app pre d2 :
  Filter.Count (rules w) <> 0 ->
  unitsOf w ((pre ++ [newline]) ++ d2) = unitsOf w (pre ++ [newline]) ++ unitsOf w d2.
Proof.
  intros Hn.
  destruct (SplitAfter_cut (pre ++ [newline])) as (ls1 & f1 & _ & Hcut1).
  destruct (SplitAfter_cut d2) as (ls2 & f2 & _ & Hcut2).
  pose proof (cut_terminated_message _ _ _ Hcut1) as ->.
  rewrite (unitsOf_cut w _ _ _ Hn (cut_app _ _ _ _ _ Hcut1 Hcut2)).
  rewrite (unitsOf_cut w _ _ _ Hn Hcut1), (unitsOf_cut w _ _ _ Hn Hcut2).
  simpl. by rewrite app_nil_r, <- List.filter_app, app_assoc.
Qed.

Lemma filter_all {A} (p : A -> bool) (l : list A) :
  (forall x, p x = true) -> List.filter p l = l.
Proof.
  intros Hp. induction l as [|x l IH]; simpl; [done|]. by rewrite Hp, IH.
Qed.

Lemma filter_none {A} (p : A -> bool) (l : list A) :
  Forall (fun x => p x = false) l -> List.filter p l = [].
Proof. induction 1 as [|x l Hx _ IH]; simpl; [done|]. by rewrite Hx. Qed.

Lemma concat_fragment ls f : concat (ls ++ fragment f) = concat ls ++ f.
Proof.
  rewrite concat_app. f_equal. destruct f; simpl; [done|]. by rewrite app_nil_r.
Qed.

End MoreFilter.

(** What a run writes is what its jobs had to write, whenever the flushes
    fell. *)
Lemma written_run (w : Writer) (ts : list Turn) (st : WorkerState) :
  written (out (workerRun w ts st)) = written (out st) ++ unitsTaken w ts.
Proof.
  revert st. induction ts as [|t ts IH]; intros st.
  - simpl. by rewrite workerRun_nil, app_nil_r.
  - rewrite workerRun_cons. unfold isStopped. simpl.
    destruct (beforeCheck_written w t st) as (us & Hw & _ & _ & Hus).
    assert (Hfl : written (out (snd (flush w t (beforeCheck w t st))))
                  = written (out st) ++ us).
    { destruct (flush_cases w t (beforeCheck w t st)) as [[_ ->]|(_ & _ & _ & ->)]; done. }
    destruct (sel t) eqn:Hsel.
    + rewrite IH, Hfl, Hus. by rewrite <- app_assoc.
    + rewrite IH, Hfl, Hus. by rewrite app_nil_r.
    + by rewrite app_nil_r.
Qed.

Lemma unitsTaken_split (w : Writer) (ts1 ts2 : list Turn) (t t1 t2 : Turn)
    (pre d2 : bytes) :
  Filter.Count (rules w) <> 0 ->
  sel t = Job ((pre ++ [GoBytes.newline]) ++ d2) ->
  sel t1 = Job (pre ++ [GoBytes.newline]) ->
  sel t2 = Job d2 ->
  unitsTaken w (ts1 ++ t :: ts2) = unitsTaken w (ts1 ++ t1 :: t2 :: ts2).
Proof.
  intros Hn Ht Ht1 Ht2. induction ts1 as [|t0 ts1 IH]; simpl.
  - rewrite Ht, Ht1, Ht2, unitsOf_app by done. by rewrite <- app_assoc.
  - destruct (sel t0); [by rewrite IH | done | done].
Qed.

(** X10.  With rules, whether a payload comes as one message or cut after a
    newline into two - one job or two - changes neither what the worker
    writes nor the bytes it delivers: along any run, whatever the clocks and
    the answers of the store in the turns concerned, the units written are
    the same, and so are the posted bytes followed by the buffered ones.
    Where the POSTs fall, and the count of received messages, may differ.
    For the write closure itself, one call on the joined message is two calls
    on the parts. *)
Theorem X10_messages_join_at_newlines (w : Writer) (ts1 ts2 : list Turn)
    (t t1 t2 : Turn) (pre d2 : bytes) (s0 s0' : gmap string Z) :
  Filter.Count (rules w) <> 0 ->
  sel t = Job ((pre ++ [GoBytes.newline]) ++ d2) ->
  sel t1 = Job (pre ++ [GoBytes.newline]) ->
  sel t2 = Job d2 ->
  let one := worker w (ts1 ++ t :: ts2) s0 in
  let two := worker w (ts1 ++ t1 :: t2 :: ts2) s0' in
  written (out one) = written (out two)
  /\ concat (posted (out one)) ++ buf (batch one)
     = concat (posted (out two)) ++ buf (batch two)
  /\ (forall now st,
        getBatchWriteFunc w now ((pre ++ [GoBytes.newline]) ++ d2) st =
        getBatchWriteFunc w now d2
          (snd (getBatchWriteFunc w now (pre ++ [GoBytes.newline]) st))).
Proof.
  intros Hn Ht Ht1 Ht2 one two.
  assert (Hw : written (out one) = written (out two)).
  { subst one two.
    change (worker w (ts1 ++ t :: ts2) s0)
      with (workerRun w (ts1 ++ t :: ts2) (freshWorker s0)).
    change (worker w (ts1 ++ t1 :: t2 :: ts2) s0')
      with (workerRun w (ts1 ++ t1 :: t2 :: ts2) (freshWorker s0')).
    rewrite !written_run. simpl. by apply unitsTaken_split with pre d2. }
  split; [done|]. split.
  - destruct (inv_worker w s0 (ts1 ++ t :: ts2)) as (H1 & _).
    destruct (inv_worker w s0' (ts1 ++ t1 :: t2 :: ts2)) as (H1' & _).
    fold one in H1. fold two in H1'. by rewrite H1, H1', Hw.
  - intros now st. rewrite !getBatchWriteFunc_unitsOf. simpl.
    rewrite unitsOf_app by done.
    by rewrite writeAll_app, fmap_app, app_assoc.
Qed.

Lemma X10_messages_join_at_newlines_witness :
  let w := newWriter (sampleConfig 2 1 5) ruleA in
  let ok := PostResp {| StatusCode := 204; Status := "204"; Body := None |} in
  let job := fun d => {| sel := Job d; tWrite := 0; tCheck := 0; post := ok |} in
  let t := job (([x61; x0a; x61] ++ [x0a]) ++ [x61; x0a]) in
  let t1 := job ([x61; x0a; x61] ++ [x0a]) in
  let t2 := job [x61; x0a] in
  let one := worker w ([] ++ t :: []) ∅ in
  let two := worker w ([] ++ t1 :: t2 :: []) ∅ in
  Filter.Count (rules w) <> 0
  /\ posted (out one) = [[x61; x0a; x61; x0a; x61; x0a]]
  /\ posted (out two) = [[x61; x0a; x61; x0a]]
  /\ buf (batch two) = [x61; x0a]
  /\ concat (posted (out one)) ++ buf (batch one)
     = concat (posted (out two)) ++ buf (batch two).
Proof.
  intros w ok job t t1 t2 one two.
  assert (Hn : Filter.Count (rules w) <> 0) by (by vm_compute).
  split; [exact Hn|]. split; [by vm_compute|]. split; [by vm_compute|].
  split; [by vm_compute|].
  exact (proj1 (proj2 (X10_messages_join_at_newlines w [] [] t t1 t2
                         [x61; x0a; x61] [x61; x0a] ∅ ∅ Hn eq_refl eq_refl eq_refl))).
Defined.

(** X11.  When there are no rules, and when the matcher accepts every line,
    a job adds to the buffer the bytes of its payload, all of them and
    nothing else: splitting the payload into lines and writing them one by
    one loses no byte and adds no separator. *)
Theorem X11_accept_all_keeps_payload (w : Writer) (now : Z) (data : bytes)
    (st : WorkerState) :
  Filter.Count (rules w) = 0 \/ (forall line, Filter.Lookup (rules w) line <> -1) ->
  buf (batch (snd (getBatchWriteFunc w now data st))) = buf (batch st) ++ data.
Proof.
  intros Hcase. rewrite getBatchWriteFunc_unitsOf. simpl. rewrite writeAll_buf.
  f_equal. destruct (Z.eq_dec (Filter.Count (rules w)) 0) as [H0|Hn].
  - unfold unitsOf. rewrite H0. simpl. by rewrite app_nil_r.
  - destruct Hcase as [H0|Hall]; [done|].
    destruct (SplitAfter_cut data) as (ls & f & _ & Hcut).
    rewrite (unitsOf_cut w _ _ _ Hn Hcut), filter_all, concat_fragment.
    + by destruct Hcut as (_ & _ & ->).
    + intros line. unfold Accept. specialize (Hall line).
      by destruct (Z.eqb_spec (Filter.Lookup (rules w) line) (-1)).
Qed.

Lemma X11_accept_all_keeps_payload_witness :
  let w := newWriter (sampleConfig 3 1 5)
             {| Filter.Count := 2; Filter.Lookup := fun _ => 1 |} in
  let w0 := newWriter (sampleConfig 3 1 5) noRules in
  let data := [x61; x0a; x0a; x62] in
  (forall line, Filter.Lookup (rules w) line <> -1)
  /\ buf (batch (snd (getBatchWriteFunc w 0 data (freshWorker ∅)))) = data
  /\ Filter.Count (rules w0) = 0
  /\ buf (batch (snd (getBatchWriteFunc w0 0 data (freshWorker ∅)))) = data.
Proof.
  intros w w0 data.
  assert (Hall : forall line, Filter.Lookup (rules w) line <> -1) by (intros line; discriminate).
  assert (H0 : Filter.Count (rules w0) = 0) by reflexivity.
  split; [exact Hall|].
  split; [exact (X11_accept_all_keeps_payload w 0 data (freshWorker ∅) (or_intror Hall))|].
  split; [exact H0|].
  exact (X11_accept_all_keeps_payload w0 0 data (freshWorker ∅) (or_introl H0)).
Defined.

(** X12.  With rules, the write count of the batch grows by the number of
    lines accepted, so that [BatchMessages] bounds lines, not messages; and a
    message none of whose lines is accepted leaves the worker as it was: no
    write, no byte, no age reference set. *)
Theorem X12_writes_count_accepted_lines (w : Writer) (now : Z) (data : bytes)
    (st : WorkerState) (ls : list bytes) (f : bytes) :
  Filter.Count (rules w) <> 0 ->
  cut data ls f ->
  Writes (batch (snd (getBatchWriteFunc w now data st))) =
    Writes (batch st) + Z.of_nat (length (List.filter (Accept w) (ls ++ fragment f)))
  /\ (Forall (fun l => Accept w l = false) (ls ++ fragment f) ->
      getBatchWriteFunc w now data st = (tt, st)).
Proof.
  intros Hn Hcut. rewrite (filtering_run w now data st ls f Hn Hcut). simpl.
  split; [apply writeAll_writes|].
  intros Hnone. rewrite filter_none by done. simpl. rewrite app_nil_r.
  by destruct st.
Qed.

Lemma X12_writes_count_accepted_lines_witness :
  let w := newWriter (sampleConfig 3 1 5) ruleA in
  let data := [x62; x0a; x63] in
  Filter.Count (rules w) <> 0
  /\ cut data [[x62; x0a]] [x63]
  /\ getBatchWriteFunc w 0 data (freshWorker ∅) = (tt, freshWorker ∅).
Proof.
  intros w data.
  assert (Hn : Filter.Count (rules w) <> 0) by (by vm_compute).
  assert (Hcut : cut data [[x62; x0a]] [x63]).
  { split; [|by vm_compute]. constructor; [by exists [x62]|]. constructor. }
  split; [exact Hn|]. split; [exact Hcut|].
  apply (proj2 (X12_writes_count_accepted_lines w 0 data (freshWorker ∅) _ _ Hn Hcut)).
  repeat constructor.
Defined.

(** ** More on the subscription monitor *)

Section MoreMonitor.
Variable w : Writer.
Variable subject : string.

(** The three ways a turn of the loop can go, by what it adds to the
    events. *)
Lemma monitorTurn_shape t st :
  let st' := snd (monitorTurn w subject t st) in
  exists evs,
    mout st' = mout st ++ evs
    /\ ((exists e, evs = [LogMaxPendingFailed e]
                   /\ returns t = false /\ last st' = last st)
        \/ (exists e, evs = [LogDroppedFailed e]
                      /\ returns t = false /\ last st' = last st)
        \/ (err (dropped t) = None
            /\ last st' = val (dropped t)
            /\ returns t = stopClosed t
            /\ evs = (if val (dropped t) =? last st then []
                      else signalDrop w subject (val (dropped t)) (last st))
                     ++ [if stopClosed t then Unsubscribe else Slept])).
Proof.
  intros st'. subst st'. unfold returns.
  destruct (pendingErr (maxPending t)) as [e|] eqn:Hp.
  - rewrite (monitorTurn_pending_failed w subject t st e) by done.
    eexists. split; [done|]. left. by exists e.
  - destruct (err (dropped t)) as [e|] eqn:Hd.
    + rewrite (monitorTurn_dropped_failed w subject t st e) by done.
      eexists. split; [done|]. right. left. by exists e.
    + rewrite monitorTurn_ok by done. eexists. split; [done|]. right. right. done.
Qed.

Lemma sumZ_app l l' : sumZ (l ++ l') = sumZ l + sumZ l'.
Proof. unfold sumZ. induction l as [|x l IH]; simpl; lia. Qed.

Lemma publishedTotals_app evs evs' :
  publishedTotals (evs ++ evs') = publishedTotals evs ++ publishedTotals evs'.
Proof. apply omap_app. Qed.

(** Over a turn the deltas logged add up to the move of [last]. *)
Lemma monitorTurn_deltas t st :
  0 <= last st <= int_max ->
  (err (dropped t) = None -> 0 <= val (dropped t) <= int_max) ->
  let st' := snd (monitorTurn w subject t st) in
  0 <= last st' <= int_max
  /\ sumZ (fst <$> dropWarnings (mout st'))
     = sumZ (fst <$> dropWarnings (mout st)) + (last st' - last st).
Proof.
  intros Hl Hd st'. destruct (monitorTurn_shape t st) as (evs & Hout & Hcase).
  fold st' in Hout, Hcase. rewrite Hout, dropWarnings_app, fmap_app, sumZ_app.
  destruct Hcase as [(e & -> & _ & ->)|[(e & -> & _ & ->)|(Herr & -> & _ & ->)]].
  - simpl. split; [done | lia].
  - simpl. split; [done | lia].
  - specialize (Hd Herr). split; [done|]. rewrite dropWarnings_app.
    destruct (Z.eqb_spec (val (dropped t)) (last st)) as [Heq|Hne].
    + destruct (stopClosed t); simpl; lia.
    + rewrite fmap_app, sumZ_app.
      destruct (stopClosed t); simpl; rewrite int_sub_counts by done; lia.
Qed.

Lemma monitorLoop_deltas ts st :
  0 <= last st <= int_max ->
  countsInRange ts ->
  let r := snd (monitorLoop w subject ts st) in
  0 <= last r <= int_max
  /\ sumZ (fst <$> dropWarnings (mout r))
     = sumZ (fst <$> dropWarnings (mout st)) + (last r - last st).
Proof.
  revert st. induction ts as [|t ts IH]; intros st Hl Hall; simpl.
  - split; [done | lia].
  - apply Forall_cons in Hall as [Ht Hall].
    destruct (monitorTurn_deltas t st Hl Ht) as (Hl1 & Hs1).
    fold (monitorLoop w subject). change (monitorLoop w subject (t :: ts) st)
      with (monitorLoop w subject (t :: ts) st).
    pose proof (monitorLoop_cons w subject t ts st) as Hcons. simpl in Hcons.
    rewrite Hcons. destruct (returns t).
    + simpl. split; [done | lia].
    + destruct (IH _ Hl1 Hall) as (Hl2 & Hs2). split; [done|].
      rewrite Hs2, Hs1. lia.
Qed.

(** Unsubscribing ends a run and nothing else does. *)
Lemma monitorLoop_unsubscribe ts st :
  List.filter isUnsubscribe (mout st) = [] ->
  let r := monitorLoop w subject ts st in
  match fst r with
  | Return => exists evs, mout (snd r) = evs ++ [Unsubscribe]
                          /\ List.filter isUnsubscribe evs = []
  | Continue => List.filter isUnsubscribe (mout (snd r)) = []
  end.
Proof.
  revert st. induction ts as [|t ts IH]; intros st Hst; [done|].
  pose proof (monitorLoop_cons w subject t ts st) as Hcons.
  cbv zeta. rewrite Hcons.
  destruct (monitorTurn_shape t st) as (evs & Hout & Hcase).
  simpl in Hout, Hcase.
  destruct Hcase as [(e & -> & -> & _)|[(e & -> & -> & _)|(_ & _ & -> & ->)]].
  - apply IH. rewrite Hout, List.filter_app, Hst. done.
  - apply IH. rewrite Hout, List.filter_app, Hst. done.
  - destruct (stopClosed t).
    + simpl. rewrite Hout, app_assoc. eexists. split; [done|].
      rewrite List.filter_app, Hst. by destruct (_ =? _).
    + apply IH. rewrite Hout, !List.filter_app, Hst. by destruct (_ =? _).
Qed.

Lemma monitorLoop_turnsTaken ts st :
  monitorLoop w subject ts st = monitorLoop w subject (turnsTaken ts) st.
Proof.
  revert st. induction ts as [|t ts IH]; intros st; [done|].
  simpl turnsTaken. destruct (returns t) eqn:Hr.
  - rewrite !monitorLoop_cons, Hr. done.
  - rewrite !monitorLoop_cons, Hr. apply IH.
Qed.

Abbreviation paired := (drops_paired w subject).

Lemma paired_app evs evs' : paired evs -> paired evs' -> paired (evs ++ evs').
Proof.
  intros (H1 & H2 & H3) (H1' & H2' & H3'). unfold drops_paired.
  rewrite publishedTotals_app, dropWarnings_app, fmap_app, List.filter_app, !length_app.
  split; [by rewrite H1, H1'|]. split; [lia|]. by apply Forall_app.
Qed.

Lemma paired_signalDrop d l : paired (signalDrop w subject d l).
Proof.
  unfold drops_paired, signalDrop. simpl. split; [done|]. split; [done|].
  repeat constructor; apply lookup_insert_eq.
Qed.

Lemma monitorLoop_paired ts st :
  paired (mout st) -> paired (mout (snd (monitorLoop w subject ts st))).
Proof.
  revert st. induction ts as [|t ts IH]; intros st Hst; [done|].
  rewrite monitorLoop_cons.
  destruct (monitorTurn_shape t st) as (evs & Hout & Hcase).
  simpl in Hout, Hcase.
  assert (Hp : paired (mout (snd (monitorTurn w subject t st)))).
  { rewrite Hout. apply paired_app; [done|].
    destruct Hcase as [(e & -> & _)|[(e & -> & _)|(_ & _ & _ & ->)]].
    - unfold drops_paired. simpl. by repeat constructor.
    - unfold drops_paired. simpl. by repeat constructor.
    - apply paired_app.
      + destruct (_ =? _); [|apply paired_signalDrop].
        unfold drops_paired. simpl. by repeat constructor.
      + unfold drops_paired. destruct (stopClosed t); simpl; by repeat constructor. }
  destruct (returns t); [done | by apply IH].
Qed.

End MoreMonitor.

(** X13.  A failure of the first [sub.Dropped()] is logged and no more: the
    monitor goes on, with the value that came with the error as its first
    [last].  The first count sampled is then compared with that value - a
    first count that differs from it is signalled as a drop, of their
    difference. *)
Theorem X13_failed_first_sample (w : Writer) (subject : string) (v : Z) (e : string)
    (t : MonTurn) (s : gmap string Z) :
  pendingErr (maxPending t) = None ->
  err (dropped t) = None ->
  let r := monitorSub w subject {| val := v; err := Some e |} [t] s in
  mout (snd r) =
    LogFirstDroppedFailed e
    :: (if val (dropped t) =? v then [] else signalDrop w subject (val (dropped t)) v)
    ++ [if stopClosed t then Unsubscribe else Slept]
  /\ dropWarnings (mout (snd r)) =
     (if val (dropped t) =? v then []
      else [(int_sub (val (dropped t)) v, val (dropped t))])
  /\ last (snd r) = val (dropped t).
Proof.
  intros Hp Hd r. subst r. unfold monitorSub. simpl.
  rewrite monitorTurn_ok by done. simpl.
  destruct (val (dropped t) =? v), (stopClosed t); done.
Qed.

Lemma X13_failed_first_sample_witness :
  let w := newWriter (sampleConfig 3 1 5) noRules in
  let t := okTurn 0 0 false in
  let r := monitorSub w "spout" {| val := -1; err := Some "invalid subscription" |} [t] ∅ in
  pendingErr (maxPending t) = None
  /\ err (dropped t) = None
  /\ dropWarnings (mout (snd r)) = [(1, 0)].
Proof.
  intros w t r.
  pose proof (X13_failed_first_sample w "spout" (-1) "invalid subscription" t ∅
                eq_refl eq_refl) as (_ & Hw & _).
  split; [reflexivity|]. split; [reflexivity | exact Hw].
Defined.

(** X14.  The drops signalled add up: over any run, with failing queries in
    it or not, the deltas of the warnings sum to the last count sampled less
    the first - no drop is signalled twice and none is lost, since a failing
    query leaves [last] as it is.  (The counts are non-negative [int]s.) *)
Theorem X14_deltas_add_up (w : Writer) (subject : string) (first : IntErr)
    (ts : list MonTurn) (s : gmap string Z) :
  0 <= val first <= int_max ->
  countsInRange ts ->
  let r := snd (monitorSub w subject first ts s) in
  sumZ (fst <$> dropWarnings (mout r)) = last r - val first
  /\ 0 <= last r <= int_max.
Proof.
  intros Hf Hall r. subst r. unfold monitorSub.
  match goal with |- context [monitorLoop _ _ _ ?st] =>
    destruct (monitorLoop_deltas w subject ts st Hf Hall) as (Hl & Hs) end.
  split; [|done]. rewrite Hs. simpl. destruct (err first); simpl; lia.
Qed.

Lemma X14_deltas_add_up_witness :
  let w := newWriter (sampleConfig 3 1 5) noRules in
  let ts := [okTurn 0 5 false; failingTurn (true, "timeout", 0);
             failingTurn (false, "timeout", 7); okTurn 0 12 false] in
  let r := snd (monitorSub w "spout" {| val := 0; err := None |} ts ∅) in
  0 <= 0 <= int_max
  /\ countsInRange ts
  /\ dropWarnings (mout r) = [(5, 5); (7, 12)]
  /\ sumZ (fst <$> dropWarnings (mout r)) = last r - 0.
Proof.
  intros w ts r.
  assert (H0 : 0 <= val {| val := 0; err := None |} <= int_max) by (by vm_compute).
  assert (Hall : countsInRange ts).
  { repeat constructor; simpl; intros; (discriminate || by vm_compute). }
  split; [exact H0|]. split; [exact Hall|]. split; [reflexivity|].
  exact (proj1 (X14_deltas_add_up w "spout" {| val := 0; err := None |} ts ∅ H0 Hall)).
Defined.

(** X15.  A monitor returns by unsubscribing and in no other way: its run
    ended in a return exactly when its last event is the unsubscription,
    which it makes once at most; and it takes no turn after the one in which
    it returned. *)
Theorem X15_unsubscribe_on_return (w : Writer) (subject : string) (first : IntErr)
    (ts : list MonTurn) (s : gmap string Z) :
  let r := monitorSub w subject first ts s in
  r = monitorSub w subject first (turnsTaken ts) s
  /\ (fst r = Return <-> list.last (mout (snd r)) = Some Unsubscribe)
  /\ length (List.filter isUnsubscribe (mout (snd r))) =
     match fst r with Return => 1%nat | Continue => 0%nat end.
Proof.
  intros r. subst r. unfold monitorSub.
  split; [apply monitorLoop_turnsTaken|].
  match goal with |- context [monitorLoop _ _ _ ?st] =>
    assert (Hst : List.filter isUnsubscribe (mout st) = [])
      by (simpl; by destruct (err first));
    pose proof (monitorLoop_unsubscribe w subject ts st Hst) as H;
    destruct (monitorLoop w subject ts st) as [nx st'] end.
  simpl in *. destruct nx.
  - rewrite H. split; [|done]. split; [done|]. intros Hl.
    destruct (mout st') as [|ev evs] using rev_ind; [done|].
    rewrite last_snoc in Hl. injection Hl as ->.
    rewrite List.filter_app in H. simpl in H. by destruct (List.filter _ evs).
  - destruct H as (evs & -> & Hevs). rewrite last_snoc, List.filter_app, Hevs. done.
Qed.

(** X16.  Every drop warning of a run comes with one record published on
    the monitoring subject - a counter named [dropped], labelled with the
    subject, whose value is the total of the warning - and with one flush of
    the connection; nothing else is published or flushed. *)
Theorem X16_drop_records (w : Writer) (subject : string) (first : IntErr)
    (ts : list MonTurn) (s : gmap string Z) :
  let r := snd (monitorSub w subject first ts s) in
  publishedTotals (mout r) = (snd <$> dropWarnings (mout r))
  /\ length (List.filter isFlush (mout r)) = length (dropWarnings (mout r))
  /\ Forall (dropRecord w subject) (mout r).
Proof.
  intros r. subst r. unfold monitorSub. apply monitorLoop_paired.
  unfold drops_paired. simpl. destruct (err first); simpl; by repeat constructor.
Qed.

(** ** More on starting *)

Lemma subscribeAll_spec (env : StartEnv) (subjects : list string) (l : Life) :
  running (fst (subscribeAll env subjects l)) =
    running l ++ (GMonitor <$> subscribedPrefix env subjects)
  /\ nc (fst (subscribeAll env subjects l)) = nc l
  /\ (snd (subscribeAll env subjects l) = None <->
      subscribedPrefix env subjects = subjects).
Proof.
  revert l. induction subjects as [|subject rest IH]; intros l; simpl.
  - by rewrite app_nil_r.
  - destruct (subscribeErr env subject); simpl.
    { rewrite app_nil_r. split; [done|]. split; [done|]. split; done. }
    destruct (limitsErr env subject); simpl.
    { rewrite app_nil_r. split; [done|]. split; [done|]. split; done. }
    destruct (IH (spawn (GMonitor subject) (wgAdd 1 l))) as (Hr & Hn & Hiff).
    rewrite Hr, Hn. simpl. rewrite <- app_assoc. split; [done|]. split; [done|].
    rewrite Hiff. split; [by intros -> | by intros [= ->]].
Qed.

(** X17.  Once the rules are read and the bus is reached, [StartWriter]
    starts the workers, [Workers] of them; then one monitor for each subject
    in turn, up to the first subject whose subscription or pending limits
    fail; and the statistician only when every subject went through and the
    final flush succeeded - which is also exactly when it returns no
    error.  The connection is open whatever follows. *)
Theorem X17_what_start_starts (cfg : Config) (env : StartEnv) :
  rulesErr env = None ->
  connectErr env = None ->
  let l := life (StartWriter cfg env) in
  let through := subscribedPrefix env (NATSSubject cfg) in
  running l =
    (GWorker <$> seq 0 (Workers cfg)) ++ (GMonitor <$> through)
    ++ match snd (startBody cfg env) with
       | None => [GStatistician]
       | Some _ => []
       end
  /\ nc l = Some ConnOpen
  /\ (snd (startBody cfg env) = None <->
      through = NATSSubject cfg /\ flushErr env = None).
Proof.
  intros Hr Hc l through. subst l through. unfold StartWriter, startBody.
  rewrite Hr, Hc.
  match goal with |- context [subscribeAll env (NATSSubject cfg) ?l0] =>
    destruct (subscribeAll_spec env (NATSSubject cfg) l0) as (Hrun & Hnc & Hiff);
    destruct (subscribeAll env (NATSSubject cfg) l0) as [l1 [e|]] eqn:Hsub
  end; simpl in *.
  - rewrite Hrun, Hnc, spawnWorkers_spec. simpl. rewrite app_nil_r.
    split; [done|]. split; [done|]. split; [done|].
    intros [Hth _]. apply Hiff in Hth. done.
  - rewrite spawnWorkers_spec in Hrun, Hnc. simpl in Hrun, Hnc.
    destruct (flushErr env) as [e|]; simpl.
    + rewrite Hrun, Hnc, app_nil_r. split; [done|]. split; [done|].
      split; [done | by intros [_ ?]].
    + rewrite Hrun, Hnc, <- app_assoc. split; [done|]. split; [done|].
      split; [|done]. intros _. split; [by apply Hiff | done].
Qed.

Lemma X17_what_start_starts_witness :
  let cfg := sampleConfig 3 1 5 in
  rulesErr flushFails = None
  /\ connectErr flushFails = None
  /\ running (life (StartWriter cfg flushFails)) =
     [GWorker 0; GWorker 1; GMonitor "spout"].
Proof.
  intros cfg. split; [reflexivity|]. split; [reflexivity|].
  exact (proj1 (X17_what_start_starts cfg flushFails eq_refl eq_refl)).
Defined.

(** ** The bounds of a writer *)

Lemma wrap_spec z : in_int (wrap z) /\ exists k, wrap z = z + k * 2 ^ 64.
Proof.
  unfold wrap, in_int, int_min, int_max.
  pose proof (Z.mod_pos_bound (z + 2 ^ 63) (2 ^ 64) ltac:(lia)) as Hb.
  split; [lia|]. exists (- ((z + 2 ^ 63) / 2 ^ 64)).
  pose proof (Z.div_mod (z + 2 ^ 63) (2 ^ 64) ltac:(lia)). lia.
Qed.

(** X18.  The bounds of a writer are the configured ones in bytes and in
    nanoseconds, computed in Go's [int]: always an [int], equal to the
    product modulo [2 ^ 64], and the product itself whenever that is an
    [int] - for [BatchMaxMB] up to [2 ^ 43 - 1] and [BatchMaxSecs] up to
    9223372036.  Past that the product wraps around. *)
Theorem X18_writer_bounds (cfg : Config) (rs : Filter.RuleSet) :
  let w := newWriter cfg rs in
  (in_int (batchMaxBytes w)
   /\ exists k, batchMaxBytes w = BatchMaxMB cfg * 1048576 + k * 2 ^ 64)
  /\ (in_int (batchMaxAge w)
      /\ exists k, batchMaxAge w = BatchMaxSecs cfg * 1000000000 + k * 2 ^ 64)
  /\ (in_int (BatchMaxMB cfg * 1048576) ->
      batchMaxBytes w = BatchMaxMB cfg * 1048576)
  /\ (in_int (BatchMaxSecs cfg * 1000000000) ->
      batchMaxAge w = BatchMaxSecs cfg * 1000000000)
  /\ (0 <= BatchMaxMB cfg <= 8796093022207 -> in_int (BatchMaxMB cfg * 1048576))
  /\ (0 <= BatchMaxSecs cfg <= 9223372036 -> in_int (BatchMaxSecs cfg * 1000000000)).
Proof.
  intros w. subst w. unfold newWriter. simpl. unfold int_mul, Second.
  split; [|split; [|split; [|split; [|split]]]].
  - split; [apply wrap_spec|].
    destruct (wrap_spec (BatchMaxMB cfg * 1024)) as (_ & k1 & ->).
    destruct (wrap_spec ((BatchMaxMB cfg * 1024 + k1 * 2 ^ 64) * 1024)) as (_ & k2 & ->).
    exists (k1 * 1024 + k2). lia.
  - apply wrap_spec.
  - intros Hin. unfold in_int, int_min, int_max in Hin.
    rewrite (wrap_in_int (BatchMaxMB cfg * 1024))
      by (unfold in_int, int_min, int_max; lia).
    rewrite wrap_in_int by (unfold in_int, int_min, int_max; lia). lia.
  - intros Hin. by rewrite wrap_in_int.
  - unfold in_int, int_min, int_max. lia.
  - unfold in_int, int_min, int_max. lia.
Qed.

Lemma X18_writer_bounds_witness :
  let cfg := sampleConfig 3 10 300 in
  let w := newWriter cfg noRules in
  in_int (BatchMaxMB cfg * 1048576)
  /\ in_int (BatchMaxSecs cfg * 1000000000)
  /\ batchMaxBytes w = 10485760
  /\ batchMaxAge w = 300000000000.
Proof.
  intros cfg w.
  assert (H1 : in_int (BatchMaxMB cfg * 1048576)) by (split; by vm_compute).
  assert (H2 : in_int (BatchMaxSecs cfg * 1000000000)) by (split; by vm_compute).
  destruct (X18_writer_bounds cfg noRules) as (_ & _ & Hb & Ha & _).
  split; [exact H1|]. split; [exact H2|].
  split; [exact (Hb H1) | exact (Ha H2)].
Defined.

(** A megabyte count of [2 ^ 43] wraps to the least [int]; by the flush
    decision every turn then posts. *)
Example bound_wraps_negative :
  batchMaxBytes (newWriter (sampleConfig 3 8796093022208 5) noRules) = int_min.
Proof. by vm_compute. Qed.
